(** * CIP lookup: canonicaliser and query engine

    A shallow embedding of the client-side search layer of the CIP/STEM
    index site:

    - [loadIndex.js]: [normalizeText], [normalizeCipInput] and the derived
      record fields [cipNorm], [cipFamily], [titleNorm];
    - [search.js]: [buildQueryEngine] with [matchCipPrefix] and [search];
    - [app.js] (the page script): [canonicalCip], [tokenize], [searchIndex].

    JavaScript strings are modelled as [string]; one [ascii] stands for one
    UTF-16 code unit in the range 0..255 (Latin-1).  On that range the
    regular-expression class [\s] and [String.prototype.trim] recognise the
    code units 9-13, 32 and 160, [\d] recognises 48-57, and [toLowerCase]
    shifts A-Z, U+00C0-U+00D6 and U+00D8-U+00DE by 32.  A JavaScript number
    used as a count ([limit]) is a [Z]. *)

From Stdlib Require Import Ascii String ZArith Lia Sorted Permutation.
From stdpp Require Import base list strings gmap.

Local Open Scope Z_scope.

(** String concatenation unfolds on a string that starts with a known code
    unit. *)
#[local] Arguments String.append !_ _ : simpl nomatch.

(** ** Strings as JavaScript sees them *)

Module Js.

Definition code (c : ascii) : N := N_of_ascii c.

(** [\d] *)
Definition isDigit (c : ascii) : bool :=
  ((48 <=? code c) && (code c <=? 57))%N.

(** [\s], which is also the set [trim] strips. *)
Definition isWs (c : ascii) : bool :=
  (((9 <=? code c) && (code c <=? 13)) || (code c =? 32) || (code c =? 160))%N.

Definition lowerChar (c : ascii) : ascii :=
  let n := code c in
  if (((65 <=? n) && (n <=? 90)) || ((192 <=? n) && (n <=? 214))
      || ((216 <=? n) && (n <=? 222)))%N
  then ascii_of_N (n + 32) else c.

(** A string in a boolean position: the empty string is falsy. *)
Definition truthy (s : string) : bool :=
  match s with EmptyString => false | String _ _ => true end.

(** A field that may be absent, read with the empty string as default. *)
Definition orEmpty (o : option string) : string :=
  match o with Some s => s | None => EmptyString end.

Fixpoint toLowerCase (s : string) : string :=
  match s with
  | EmptyString => EmptyString
  | String c s' => String (lowerChar c) (toLowerCase s')
  end.

Fixpoint allDigits (s : string) : bool :=
  match s with
  | EmptyString => true
  | String c s' => isDigit c && allDigits s'
  end.

Fixpoint allWs (s : string) : bool :=
  match s with
  | EmptyString => true
  | String c s' => isWs c && allWs s'
  end.

Definition startsWithWs (s : string) : bool :=
  match s with EmptyString => false | String c _ => isWs c end.

Fixpoint trimStart (s : string) : string :=
  match s with
  | EmptyString => EmptyString
  | String c s' => if isWs c then trimStart s' else s
  end.

Fixpoint trimEnd (s : string) : string :=
  match s with
  | EmptyString => EmptyString
  | String c s' => if isWs c && allWs s' then EmptyString
                   else String c (trimEnd s')
  end.

Definition trim (s : string) : string := trimEnd (trimStart s).

(** [s.startsWith(p)] *)
Fixpoint startsWith (s p : string) {struct p} : bool :=
  match p, s with
  | EmptyString, _ => true
  | String _ _, EmptyString => false
  | String b p', String a s' => Ascii.eqb a b && startsWith s' p'
  end.

(** [s.endsWith(p)]: [p] starts one of the suffixes of [s] and reaches
    its end. *)
Fixpoint endsWith (s p : string) : bool :=
  String.eqb s p ||
  match s with
  | EmptyString => false
  | String _ s' => endsWith s' p
  end.

(** [s.includes(p)] *)
Fixpoint includes (s p : string) : bool :=
  startsWith s p ||
  match s with
  | EmptyString => false
  | String _ s' => includes s' p
  end.

(** [s.slice(0, n)] for [0 <= n]. *)
Fixpoint slice0 (n : nat) (s : string) : string :=
  match n, s with
  | S n', String c s' => String c (slice0 n' s')
  | _, _ => EmptyString
  end.

(** [s.replace(/[\[\]\(\)]/g, empty)]: every bracket and parenthesis is
    removed. *)
Definition isBracket (c : ascii) : bool :=
  (Ascii.eqb c "[" || Ascii.eqb c "]" || Ascii.eqb c "(" || Ascii.eqb c ")")%char.

Fixpoint removeBrackets (s : string) : string :=
  match s with
  | EmptyString => EmptyString
  | String c s' => if isBracket c then removeBrackets s'
                   else String c (removeBrackets s')
  end.

(** [s.replace(/\s+/g, " ")]: every maximal run of white space becomes
    one space; the space is produced at the last unit of the run. *)
Fixpoint collapseWs (s : string) : string :=
  match s with
  | EmptyString => EmptyString
  | String c s' =>
      if isWs c then
        if startsWithWs s' then collapseWs s' else String " " (collapseWs s')
      else String c (collapseWs s')
  end.

(** A code unit that is not a separator goes in front of the piece being
    read. *)
Definition onFirst (c : ascii) (pieces : list string) : list string :=
  match pieces with
  | p :: ps => String c p :: ps
  | [] => [String c EmptyString]
  end.

(** [s.split(/\s+/)]: the pieces between maximal runs of white space;
    always at least one piece, empty pieces at the ends when the string
    starts or ends with white space. *)
Fixpoint splitWs (s : string) : list string :=
  match s with
  | EmptyString => [EmptyString]
  | String c s' =>
      if isWs c then
        if startsWithWs s' then splitWs s' else EmptyString :: splitWs s'
      else onFirst c (splitWs s')
  end.

(** [s.split(".")] *)
Fixpoint splitDot (s : string) : list string :=
  match s with
  | EmptyString => [EmptyString]
  | String c s' =>
      if Ascii.eqb c "."%char then EmptyString :: splitDot s'
      else onFirst c (splitDot s')
  end.

(** A template-literal hole filled from an array slot: an absent slot
    prints as [undefined]. *)
Definition slot (l : list string) (i : nat) : string :=
  match l !! i with Some s => s | None => "undefined" end.

(** [s.padStart(target, pad)] *)
Fixpoint fill (pad cur : string) (n : nat) : string :=
  match n with
  | O => EmptyString
  | S n' =>
      match cur with
      | String c cur' => String c (fill pad cur' n')
      | EmptyString =>
          match pad with
          | String c pad' => String c (fill pad pad' n')
          | EmptyString => EmptyString
          end
      end
  end.

Definition padStart (target : nat) (pad s : string) : string :=
  fill pad pad (target - String.length s) +:+ s.

(** [a < b] on strings: code units compared left to right. *)
Definition lt (a b : string) : bool := String.ltb a b.

End Js.

(** ** The four regular expressions of the canonicaliser *)

(** [/^\d{2}$/] *)
Definition re_family (s : string) : bool :=
  match s with
  | String a (String b EmptyString) => Js.isDigit a && Js.isDigit b
  | _ => false
  end.

(** [/^\d{2}\.\d{2}$/] *)
Definition re_subfamily (s : string) : bool :=
  match s with
  | String a (String b (String dot r)) =>
      Js.isDigit a && Js.isDigit b && Ascii.eqb dot "."%char
      && Js.allDigits r && (String.length r =? 2)%nat
  | _ => false
  end.

(** [/^\d{2}\.\d{4}$/] *)
Definition re_canonical (s : string) : bool :=
  match s with
  | String a (String b (String dot r)) =>
      Js.isDigit a && Js.isDigit b && Ascii.eqb dot "."%char
      && Js.allDigits r && (String.length r =? 4)%nat
  | _ => false
  end.

(** [s.match(/^(\d{2})\.(\d{1,4})$/)]: the two groups, or no match. *)
Definition re_partial (s : string) : option (string * string) :=
  match s with
  | String a (String b (String dot r)) =>
      if Js.isDigit a && Js.isDigit b && Ascii.eqb dot "."%char
         && Js.allDigits r && (1 <=? String.length r)%nat
         && (String.length r <=? 4)%nat
      then Some (String a (String b EmptyString), r) else None
  | _ => None
  end.

(** ** loadIndex.js *)

Definition normalizeText (s : string) : string :=
  Js.collapseWs (Js.toLowerCase (Js.trim s)).

Definition normalizeCipInput (cip : string) : string :=
  let raw := Js.trim cip in
  if negb (Js.truthy raw) then EmptyString
  else
    let cleaned := Js.removeBrackets raw in
    if re_family cleaned then cleaned +:+ ".0000"
    else if re_subfamily cleaned then
      let ab := Js.splitDot cleaned in
      Js.slot ab 0 +:+ "." +:+ Js.slot ab 1 +:+ "00"
    else if re_canonical cleaned then cleaned
    else
      match re_partial cleaned with
      | Some (left', right') => left' +:+ "." +:+ Js.padStart 4 "0" right'
      | None => EmptyString
      end.

(** One record of the published index, as the JSON carries it: [title],
    [definition] and [cipFamily] may be absent.  [familyField] is the JSON's
    [cipFamily]; the name [cipFamily] is kept for the field of the loaded
    record, which is never absent. *)
Record Entry := mkEntry {
  cip : string;
  title : option string;
  definition : option string;
  stemEligible : bool;
  familyField : option string
}.

(** A record as [loadIndex] hands it to the query engine: the entry with
    the derived fields [cipNorm], [cipFamily] and [titleNorm]. *)
Record CipRecord := mkCipRecord {
  entry : Entry;
  cipNorm : string;
  cipFamily : string;
  titleNorm : string
}.

Definition eligible (r : CipRecord) : bool := stemEligible (entry r).
Arguments eligible : simpl never.

(** The body of [records.map] in [loadIndex]. *)
Definition deriveRecord (r : Entry) : CipRecord :=
  {| entry := r;
     cipNorm := cip r;
     cipFamily :=
       match familyField r with
       | Some f => if Js.truthy f then f else Js.slot (Js.splitDot (cip r)) 0
       | None => Js.slot (Js.splitDot (cip r)) 0
       end;
     titleNorm := normalizeText (Js.orEmpty (title r)) |}.

Definition loadRecords (json : list Entry) : list CipRecord :=
  map deriveRecord json.

(** ** search.js *)

(** [Array.prototype.sort] with a comparator: a stable sort, here by
    insertion from the right. *)
Section Sort.
Context {A : Type} (cmp : A → A → Z).

Fixpoint insertBy (x : A) (l : list A) : list A :=
  match l with
  | [] => [x]
  | y :: l' => if cmp x y <=? 0 then x :: l else y :: insertBy x l'
  end.

Definition sortBy (l : list A) : list A := foldr insertBy [] l.
End Sort.

(** The comparator of [results.sort]. *)
Definition cmpCip (a b : CipRecord) : Z :=
  if Js.lt (cipNorm a) (cipNorm b) then -1
  else if Js.lt (cipNorm b) (cipNorm a) then 1 else 0.

Definition matchCipPrefix (record : CipRecord) (userInputRaw : string) : bool :=
  let raw := Js.trim userInputRaw in
  if negb (Js.truthy raw) then false
  else if re_family raw then String.eqb (cipFamily record) raw
  else if re_subfamily raw then Js.startsWith (cipNorm record) raw
  else false.

(** The body of the scan loop between [let ok = false] and [results.push]:
    the three tests in the order of the source. *)
Definition isHit (query qText qCipCanon : string) (r : CipRecord) : bool :=
  let ok := false in
  let ok := if matchCipPrefix r query then true else ok in
  let ok := if negb ok && Js.truthy qText
            then (if Js.includes (titleNorm r) qText then true else ok)
            else ok in
  let ok := if negb ok && Js.truthy qCipCanon
            then (let prefix4 := Js.slice0 5 qCipCanon in
                  if Js.startsWith (cipNorm r) prefix4 then true else ok)
            else ok in
  ok.

(** The [for (const r of records)] loop, with [results] threaded through:
    [continue] goes to the next record without the limit test, [break]
    returns what has been collected. *)
Fixpoint scan (hit : CipRecord → bool) (stemOnly : bool) (limit : Z)
    (rs results : list CipRecord) : list CipRecord :=
  match rs with
  | [] => results
  | r :: rest =>
      if stemOnly && negb (eligible r) then scan hit stemOnly limit rest results
      else
        let results := if hit r then results ++ [r] else results in
        if limit <=? Z.of_nat (length results) then results
        else scan hit stemOnly limit rest results
  end.

Section buildQueryEngine.
Variable records : list CipRecord.

(** [new Map(records.map((r) => [r.cipNorm, r]))]: entries are set in
    order, a later record replaces an earlier one with the same key. *)
Definition byCip : gmap string CipRecord :=
  foldl (λ m r, <[cipNorm r := r]> m) ∅ records.

(** The test [qCipCanon && byCip.has(qCipCanon)] together with
    [byCip.get(qCipCanon)]. *)
Definition exactMatch (qCipCanon : string) : option CipRecord :=
  if Js.truthy qCipCanon then byCip !! qCipCanon else None.

Definition search (q : string) (stemOnly : bool) (limit : Z) : list CipRecord :=
  let query := Js.trim q in
  let qText := normalizeText query in
  let qCipCanon := normalizeCipInput query in
  match exactMatch qCipCanon with
  | Some rec => if negb stemOnly || eligible rec then [rec] else []
  | None =>
      sortBy cmpCip (scan (isHit query qText qCipCanon) stemOnly limit records [])
  end.
End buildQueryEngine.

(** ** app.js *)

Definition isOpen (c : ascii) : bool := (Ascii.eqb c "[" || Ascii.eqb c "(")%char.
Definition isClose (c : ascii) : bool := (Ascii.eqb c "]" || Ascii.eqb c ")")%char.

Fixpoint allClose (s : string) : bool :=
  match s with
  | EmptyString => true
  | String c s' => isClose c && allClose s'
  end.

Fixpoint stripOpen (s : string) : string :=
  match s with
  | EmptyString => EmptyString
  | String c s' => if isOpen c then stripOpen s' else s
  end.

Fixpoint stripClose (s : string) : string :=
  match s with
  | EmptyString => EmptyString
  | String c s' => if isClose c && allClose s' then EmptyString
                   else String c (stripClose s')
  end.

(** [s.replace(/^[\[\(]+|[\]\)]+$/g, empty)]: the run of opening brackets
    at the start and the run of closing brackets at the end are removed. *)
Definition stripEnds (s : string) : string := stripClose (stripOpen s).

(** [/^\d{1,4}$/] *)
Definition re_digits1to4 (s : string) : bool :=
  Js.allDigits s && (1 <=? String.length s)%nat && (String.length s <=? 4)%nat.

(** [/^\d{2}$/] and [/^\d{4}$/] on the right segment. *)
Definition re_digitsN (n : nat) (s : string) : bool :=
  Js.allDigits s && (String.length s =? n)%nat.

Definition canonicalCip (raw : string) : string :=
  let s := stripEnds (Js.trim raw) in
  if negb (Js.truthy s) then EmptyString
  else if negb (Js.includes s ".") then
    (if re_family s then s +:+ ".0000" else s)
  else
    let parts := take 2 (Js.splitDot s) in
    let left2 := Js.trim (Js.slot parts 0) in
    let right' := Js.trim (Js.orEmpty (parts !! 1%nat)) in
    if re_family left2 && re_digitsN 2 right' then left2 +:+ "." +:+ right' +:+ "00"
    else if re_family left2 && re_digitsN 4 right' then left2 +:+ "." +:+ right'
    else if re_family left2 && re_digits1to4 right'
    then left2 +:+ "." +:+ Js.padStart 4 "0" right'
    else s.

Definition tokenize (q : string) : list string :=
  List.filter Js.truthy (map Js.trim (Js.splitWs (Js.toLowerCase q))).

(** The haystack of the keyword filter: title, one space, definition, in
    lower case. *)
Definition hay (r : Entry) : string :=
  Js.toLowerCase (Js.orEmpty (title r) +:+ " " +:+ Js.orEmpty (definition r)).

(** [searchIndex] once the index is loaded; [records] is [INDEX.records]. *)
Definition searchIndex (records : list Entry) (q : string) (stemOnly : bool)
    : list Entry :=
  let qTrim := Js.trim q in
  let toks := tokenize qTrim in
  let asCip := canonicalCip qTrim in
  let isCipQuery := Js.truthy asCip && re_canonical asCip in
  let hits := records in
  let hits := if stemOnly then List.filter stemEligible hits else hits in
  if String.eqb qTrim EmptyString then take 50 hits
  else if isCipQuery then
    let family := Js.slice0 2 asCip in
    let roll4 := Js.slice0 5 asCip in
    let exact := asCip in
    if Js.endsWith exact ".0000"
    then List.filter (λ r, Js.startsWith (cip r) (family +:+ ".")) hits
    else if Js.endsWith exact "00"
    then List.filter (λ r, Js.startsWith (cip r) roll4) hits
    else List.filter (λ r, String.eqb (cip r) exact) hits
  else
    List.filter (λ r, forallb (Js.includes (hay r)) toks) hits.

(** ** Vocabulary of the statements *)

(** The canonical shape [NN.NNNN]. *)
Definition Canonical (s : string) : Prop :=
  ∃ a b c d e f,
    s = String a (String b (String "." (String c (String d (String e (String f EmptyString))))))
    ∧ Js.isDigit a = true ∧ Js.isDigit b = true ∧ Js.isDigit c = true
    ∧ Js.isDigit d = true ∧ Js.isDigit e = true ∧ Js.isDigit f = true.

(** A string of zeros. *)
Fixpoint allZeros (s : string) : bool :=
  match s with
  | EmptyString => true
  | String c s' => Ascii.eqb c "0"%char && allZeros s'
  end.

(** No code unit of the string is white space. *)
Fixpoint noWs (s : string) : bool :=
  match s with
  | EmptyString => true
  | String c s' => negb (Js.isWs c) && noWs s'
  end.

(** Ascending order of the canonical codes. *)
Definition codeLe (a b : CipRecord) : Prop :=
  String.leb (cipNorm a) (cipNorm b) = true.

(** A record the loop looks at: it is not skipped by [continue]. *)
Definition scanned (stemOnly : bool) (r : CipRecord) : bool :=
  negb (stemOnly && negb (eligible r)).

(** The records the loop would collect from [rs] without a limit. *)
Definition matching (hit : CipRecord → bool) (stemOnly : bool)
    (rs : list CipRecord) : list CipRecord :=
  List.filter (λ r, scanned stemOnly r && hit r) rs.

(** The canonical form [search] computes for the query. *)
Definition canon (q : string) : string := normalizeCipInput (Js.trim q).

(** The three tests of the loop body for the query [q], as [search] sets
    them up. *)
Definition queryHit (q : string) (r : CipRecord) : bool :=
  isHit (Js.trim q) (normalizeText (Js.trim q)) (canon q) r.

(** [t] occurs in [s] as a run of consecutive code units. *)
Definition Infix (t s : string) : Prop := ∃ pre post, s = pre +:+ t +:+ post.

(** ** Sample data *)

Definition entryOf (c t : string) (stem : bool) : Entry :=
  {| cip := c; title := Some t; definition := None;
     stemEligible := stem; familyField := None |}.

Definition sample (c t : string) (stem : bool) : CipRecord :=
  deriveRecord (entryOf c t stem).

Definition computing : Entry :=
  {| cip := "11.0701"; title := Some "Computer  Science";
     definition := Some "A program that focuses on computers and computing.";
     stemEligible := true; familyField := None |}.

Definition compEng : Entry :=
  {| cip := "14.0901"; title := Some "Computer Engineering, General";
     definition := Some "A program that prepares individuals to design computer hardware.";
     stemEligible := true; familyField := Some "14" |}.

Definition eeTech : Entry :=
  {| cip := "15.0303"; title := Some "Electrical and Electronic Engineering Technology";
     definition := Some "Support of engineers who build computer systems.";
     stemEligible := false; familyField := None |}.

(** ** app.js: the query string *)

(** [setUrlState] and [readUrlState] work on the search parameters of the
    page URL.  The parameters are modelled as [URLSearchParams] presents
    them to [get], [set] and [delete]: a finite map from a name to its
    value. *)
Definition setUrlState (q : string) (stemOnly : bool)
    (params : gmap string string) : gmap string string :=
  let params := if Js.truthy q then <["q" := q]> params else delete "q" params in
  let params := if stemOnly then <["stem" := "1"]> params
                else delete "stem" params in
  params.

Definition readUrlState (params : gmap string string) : string * bool :=
  let q := Js.orEmpty (params !! "q") in
  let stem := match params !! "stem" with
              | Some v => String.eqb v "1"
              | None => false
              end in
  (q, stem).

(** Every code unit of the string is a digit or a dot. *)
Fixpoint codeChars (s : string) : bool :=
  match s with
  | EmptyString => true
  | String c s' => (Js.isDigit c || Ascii.eqb c "."%char) && codeChars s'
  end.

(** The text of a code before its first dot. *)
Fixpoint noDot (s : string) : bool :=
  match s with
  | EmptyString => true
  | String c s' => negb (Ascii.eqb c "."%char) && noDot s'
  end.

(** * Properties *)

(** ** The functions on a few inputs *)

Example normalizeCipInput_samples :
  map normalizeCipInput ["14"; " [14.09] "; "14.0903"; "14.903"; "14.9"; "14.09031"; "engineering"; EmptyString]
  = ["14.0000"; "14.0900"; "14.0903"; "14.0903"; "14.0009"; EmptyString; EmptyString; EmptyString].
Proof. reflexivity. Qed.

Example canonicalCip_samples :
  map canonicalCip ["14"; "(14.09)"; "14.9"; "engineering"; "14.09.01"]
  = ["14.0000"; "14.0900"; "14.0009"; "engineering"; "14.0900"].
Proof. reflexivity. Qed.

Example normalizeText_sample :
  normalizeText "  Computer   ENGINEERING, General " = "computer engineering, general".
Proof. reflexivity. Qed.

Example tokenize_sample :
  tokenize "  Computer   ENGINEERING " = ["computer"; "engineering"].
Proof. reflexivity. Qed.

Example search_family_sample :
  map cipNorm (search (loadRecords [computing; compEng; eeTech]) "14" false 50)
  = ["14.0901"].
Proof. reflexivity. Qed.

Example search_sorted_sample :
  map cipNorm (search (loadRecords [eeTech; compEng; computing]) "engineering" false 50)
  = ["14.0901"; "15.0303"].
Proof. reflexivity. Qed.

Example search_stem_sample :
  map cipNorm (search (loadRecords [eeTech; compEng; computing]) "engineering" true 50)
  = ["14.0901"].
Proof. reflexivity. Qed.

(** ** Characters *)

Ltac by_cases_on_char c :=
  destruct c as [[] [] [] [] [] [] [] []]; try reflexivity; try discriminate.

Lemma digit_not_ws c : Js.isDigit c = true → Js.isWs c = false.
Proof. by_cases_on_char c. Qed.

Lemma digit_not_bracket c : Js.isDigit c = true → Js.isBracket c = false.
Proof. by_cases_on_char c. Qed.

Lemma digit_not_dot c : Js.isDigit c = true → Ascii.eqb c "."%char = false.
Proof. by_cases_on_char c. Qed.

Lemma lowerChar_ws c : Js.isWs (Js.lowerChar c) = Js.isWs c.
Proof. by_cases_on_char c. Qed.

Lemma re_family_inv s :
  re_family s = true →
  ∃ a b, s = String a (String b EmptyString) ∧ Js.isDigit a = true ∧ Js.isDigit b = true.
Proof.
  destruct s as [|a [|b [|? ?]]]; simpl; try discriminate.
  intros [? ?]%andb_true_iff. eauto.
Qed.

Lemma digits_of_length n r :
  Js.allDigits r = true → String.length r = n →
  match n with
  | 1%nat => ∃ c, r = String c EmptyString ∧ Js.isDigit c = true
  | 2%nat => ∃ c d, r = String c (String d EmptyString) ∧ Js.isDigit c = true ∧ Js.isDigit d = true
  | 3%nat => ∃ c d e, r = String c (String d (String e EmptyString))
                ∧ Js.isDigit c = true ∧ Js.isDigit d = true ∧ Js.isDigit e = true
  | 4%nat => ∃ c d e f, r = String c (String d (String e (String f EmptyString)))
                ∧ Js.isDigit c = true ∧ Js.isDigit d = true
                ∧ Js.isDigit e = true ∧ Js.isDigit f = true
  | _ => True
  end.
Proof.
  intros Hd Hl.
  destruct n as [|[|[|[|[|n]]]]]; [exact I| | | | |exact I];
    repeat (destruct r as [|? r]; simpl in Hl; try discriminate Hl);
    simpl in Hd; repeat (apply andb_true_iff in Hd as [? Hd]); eauto 12.
Qed.

Lemma shape_inv s (P : nat → bool) :
  match s with
  | String a (String b (String dot r)) =>
      Js.isDigit a && Js.isDigit b && Ascii.eqb dot "."%char
      && Js.allDigits r && P (String.length r)
  | _ => false
  end = true →
  ∃ a b r, s = String a (String b (String "." r))
    ∧ Js.isDigit a = true ∧ Js.isDigit b = true
    ∧ Js.allDigits r = true ∧ P (String.length r) = true.
Proof.
  destruct s as [|a [|b [|dot r]]]; try discriminate.
  rewrite !andb_true_iff. intros [[[[Ha Hb] Hdot] Hr] HP].
  apply Ascii.eqb_eq in Hdot. subst dot. eauto 10.
Qed.

Lemma re_subfamily_inv s :
  re_subfamily s = true →
  ∃ a b c d, s = String a (String b (String "." (String c (String d EmptyString))))
    ∧ Js.isDigit a = true ∧ Js.isDigit b = true
    ∧ Js.isDigit c = true ∧ Js.isDigit d = true.
Proof.
  intros (a & b & r & -> & Ha & Hb & Hr & Hl)%(shape_inv s (λ n, n =? 2)%nat).
  apply Nat.eqb_eq in Hl.
  destruct (digits_of_length 2 r Hr Hl) as (c & d & -> & ? & ?). eauto 10.
Qed.

Lemma re_canonical_inv s : re_canonical s = true → Canonical s.
Proof.
  intros (a & b & r & -> & Ha & Hb & Hr & Hl)%(shape_inv s (λ n, n =? 4)%nat).
  apply Nat.eqb_eq in Hl.
  destruct (digits_of_length 4 r Hr Hl) as (c & d & e & f & -> & ? & ? & ? & ?).
  red. eauto 20.
Qed.

Lemma re_partial_inv s l r :
  re_partial s = Some (l, r) →
  ∃ a b, s = String a (String b (String "." r)) ∧ l = String a (String b EmptyString)
    ∧ Js.isDigit a = true ∧ Js.isDigit b = true ∧ Js.allDigits r = true
    ∧ (1 ≤ String.length r ≤ 4)%nat.
Proof.
  unfold re_partial. destruct s as [|a [|b [|dot r']]]; try discriminate.
  destruct (_ && _) eqn:E; [|discriminate]. intros [= <- <-].
  rewrite !andb_true_iff in E. destruct E as [[[[[Ha Hb] Hdot] Hr] H1] H4].
  apply Ascii.eqb_eq in Hdot. subst dot.
  apply Nat.leb_le in H1. apply Nat.leb_le in H4. eauto 10.
Qed.

(** ** White space and trimming *)

Lemma allDigits_noWs s : Js.allDigits s = true → noWs s = true.
Proof.
  induction s as [|c s IH]; simpl; [done|].
  intros [Hc Hs]%andb_true_iff. by rewrite (digit_not_ws c Hc), IH.
Qed.

Lemma trimStart_noWs s : noWs s = true → Js.trimStart s = s.
Proof.
  destruct s as [|c s]; simpl; [done|].
  intros [Hc _]%andb_true_iff. apply negb_true_iff in Hc. by rewrite Hc.
Qed.

Lemma trimEnd_noWs s : noWs s = true → Js.trimEnd s = s.
Proof.
  induction s as [|c s IH]; simpl; [done|].
  intros [Hc Hs]%andb_true_iff. apply negb_true_iff in Hc.
  rewrite Hc. simpl. by rewrite IH.
Qed.

Lemma trim_noWs s : noWs s = true → Js.trim s = s.
Proof.
  intros H. unfold Js.trim. rewrite (trimStart_noWs s H). by apply trimEnd_noWs.
Qed.

Lemma removeBrackets_digits s :
  Js.allDigits s = true → Js.removeBrackets s = s.
Proof.
  induction s as [|c s IH]; simpl; [done|].
  intros [Hc Hs]%andb_true_iff. by rewrite (digit_not_bracket c Hc), IH.
Qed.

Lemma allWs_trimEnd s : Js.allWs (Js.trimEnd s) = Js.allWs s.
Proof.
  induction s as [|c s IH]; simpl; [done|].
  destruct (Js.isWs c && Js.allWs s) eqn:E; [done|].
  simpl. by rewrite IH.
Qed.

Lemma trimEnd_idem s : Js.trimEnd (Js.trimEnd s) = Js.trimEnd s.
Proof.
  induction s as [|c s IH]; simpl; [done|].
  destruct (Js.isWs c && Js.allWs s) eqn:E; [done|].
  simpl. by rewrite allWs_trimEnd, E, IH.
Qed.

Lemma trimStart_head s :
  Js.startsWithWs (Js.trimStart s) = false.
Proof.
  induction s as [|c s IH]; simpl; [done|].
  destruct (Js.isWs c) eqn:E; [done|]. simpl. by rewrite E.
Qed.

Lemma trimStart_fix s : Js.startsWithWs s = false → Js.trimStart s = s.
Proof. destruct s as [|c s]; simpl; [done|]. by intros ->. Qed.

Lemma trimEnd_head s :
  Js.startsWithWs s = false → Js.startsWithWs (Js.trimEnd s) = false.
Proof.
  destruct s as [|c s]; simpl; [done|]. intros Hc. rewrite Hc. simpl. exact Hc.
Qed.

Lemma trim_idem s : Js.trim (Js.trim s) = Js.trim s.
Proof.
  unfold Js.trim.
  rewrite (trimStart_fix (Js.trimEnd _)) by apply trimEnd_head, trimStart_head.
  apply trimEnd_idem.
Qed.

(** ** The canonicaliser *)

Lemma normalizeCipInput_trim s :
  normalizeCipInput (Js.trim s) = normalizeCipInput s.
Proof. unfold normalizeCipInput. by rewrite trim_idem. Qed.

Lemma padStart_digits r :
  Js.allDigits r = true → (1 ≤ String.length r ≤ 4)%nat →
  ∃ zeros, Js.padStart 4 "0" r = zeros +:+ r ∧ allZeros zeros = true
    ∧ String.length (zeros +:+ r) = 4%nat
    ∧ Js.allDigits (zeros +:+ r) = true.
Proof.
  intros Hd [H1 H4]. unfold Js.padStart.
  exists (Js.fill "0" "0" (4 - String.length r)).
  split; [done|].
  destruct r as [|c1 [|c2 [|c3 [|c4 [|c5 r]]]]]; simpl in *; try lia;
    repeat (apply andb_true_iff in Hd as [? Hd]);
    repeat split; simpl; rewrite ?andb_true_iff; auto.
Qed.

(** C9.  Whatever the input string, [normalizeCipInput] returns the empty
    string or a string of the canonical shape: two digits, a dot, four
    digits.  No other shape, and in particular no unparsed input, comes
    back. *)
Theorem normalizeCipInput_empty_or_canonical (s : string) :
  normalizeCipInput s = EmptyString ∨ Canonical (normalizeCipInput s).
Proof.
  unfold normalizeCipInput.
  destruct (Js.truthy (Js.trim s)); simpl; [|by left].
  generalize (Js.removeBrackets (Js.trim s)). clear s. intros s.
  destruct (re_family s) eqn:Ef.
  { apply re_family_inv in Ef as (a & b & -> & Ha & Hb).
    right. exists a, b, "0"%char, "0"%char, "0"%char, "0"%char. auto 10. }
  destruct (re_subfamily s) eqn:Es.
  { apply re_subfamily_inv in Es as (a & b & c & d & -> & Ha & Hb & Hc & Hd).
    right. exists a, b, c, d, "0"%char, "0"%char.
    simpl. rewrite (digit_not_dot a Ha), (digit_not_dot b Hb),
      (digit_not_dot c Hc), (digit_not_dot d Hd). simpl. auto 10. }
  destruct (re_canonical s) eqn:Ec.
  { right. by apply re_canonical_inv. }
  destruct (re_partial s) as [[l r]|] eqn:Ep; [|by left].
  apply re_partial_inv in Ep as (a & b & -> & -> & Ha & Hb & Hr & Hlen).
  right. destruct (padStart_digits r Hr Hlen) as (z & -> & _ & Hl & Hd).
  destruct (digits_of_length 4 _ Hd Hl) as (c & d & e & f & -> & ? & ? & ? & ?).
  exists a, b, c, d, e, f. simpl. auto 10.
Qed.

Lemma normalizeCipInput_partial s l r :
  re_partial s = Some (l, r) →
  re_subfamily s = false → re_canonical s = false →
  normalizeCipInput s = l +:+ "." +:+ Js.padStart 4 "0" r.
Proof.
  intros Hp Hs Hc.
  destruct (re_partial_inv s l r Hp) as (a & b & E & -> & Ha & Hb & Hr & Hlen).
  assert (Hnows : noWs s = true).
  { subst s. simpl. rewrite (digit_not_ws a Ha), (digit_not_ws b Hb). simpl.
    by apply allDigits_noWs. }
  assert (Hnobr : Js.removeBrackets s = s).
  { subst s. simpl. rewrite (digit_not_bracket a Ha), (digit_not_bracket b Hb).
    simpl. by rewrite removeBrackets_digits. }
  unfold normalizeCipInput. rewrite (trim_noWs s Hnows), Hnobr, Hs, Hc, Hp.
  subst s. reflexivity.
Qed.

(** C6 (as the code has it).  For an input of two digits, a dot and one to
    four digits that is neither [NN.NN] nor [NN.NNNN], the right segment is
    padded to four digits with zeros placed in front of it ([padStart]),
    not after it; in particular ["14.9"] becomes ["14.0009"]. *)
Theorem normalizeCipInput_pads_left :
  (∀ s l r,
     re_partial s = Some (l, r) →
     re_subfamily s = false → re_canonical s = false →
     ∃ zeros, normalizeCipInput s = l +:+ "." +:+ zeros +:+ r
       ∧ zeros ≠ EmptyString ∧ allZeros zeros = true
       ∧ String.length (zeros +:+ r) = 4%nat)
  ∧ normalizeCipInput "14.9" = "14.0009".
Proof.
  split; [|reflexivity].
  intros s l r Hp Hs Hc.
  rewrite (normalizeCipInput_partial s l r Hp Hs Hc).
  destruct (re_partial_inv s l r Hp) as (a & b & -> & -> & Ha & Hb & Hr & Hlen).
  destruct (padStart_digits r Hr Hlen) as (z & -> & Hz & Hl & _).
  exists z. repeat split; auto.
  intros ->. change (String.length r = 4%nat) in Hl.
  revert Hc. unfold re_canonical. rewrite Ha, Hb, Hr, Hl. discriminate.
Qed.

Lemma normalizeCipInput_pads_left_witness :
  ∃ zeros, normalizeCipInput "14.9" = "14" +:+ "." +:+ zeros +:+ "9"
    ∧ zeros ≠ EmptyString ∧ allZeros zeros = true
    ∧ String.length (zeros +:+ "9") = 4%nat.
Proof.
  apply (proj1 normalizeCipInput_pads_left "14.9" "14" "9"); reflexivity.
Defined.

(** C6 as the specification words it fails: the zeros are not appended. *)
Lemma normalizeCipInput_does_not_pad_right :
  re_partial "14.9" = Some ("14", "9")
  ∧ re_subfamily "14.9" = false ∧ re_canonical "14.9" = false
  ∧ normalizeCipInput "14.9" ≠ "14.9000".
Proof. repeat split; try reflexivity. discriminate. Qed.

(** ** The sort *)

Section SortFacts.
Context {A : Type} (cmp : A → A → Z).

Lemma insertBy_perm x l : Permutation (insertBy cmp x l) (x :: l).
Proof.
  induction l as [|y l IH]; simpl; [done|].
  destruct (cmp x y <=? 0); [done|].
  rewrite IH. apply perm_swap.
Qed.

Lemma sortBy_perm l : Permutation (sortBy cmp l) l.
Proof.
  induction l as [|x l IH]; simpl; [done|].
  rewrite insertBy_perm. by constructor.
Qed.

Lemma sortBy_length l : length (sortBy cmp l) = length l.
Proof. apply Permutation_length, sortBy_perm. Qed.

Lemma sortBy_In x l : In x (sortBy cmp l) ↔ In x l.
Proof.
  split; apply Permutation_in; [|symmetry]; apply sortBy_perm.
Qed.

(** What the comparator must satisfy for the result to be ordered: when
    it puts [x] after [y] it does not also put [y] after [x]. *)
Hypothesis cmp_flip : ∀ x y, 0 < cmp x y → cmp y x <= 0.

Lemma insertBy_sorted x l :
  Sorted (λ a b, cmp a b <= 0) l →
  Sorted (λ a b, cmp a b <= 0) (insertBy cmp x l).
Proof.
  induction 1 as [|y l Hs IH Hhd]; simpl.
  - repeat constructor.
  - destruct (cmp x y <=? 0) eqn:E.
    + apply Z.leb_le in E. repeat constructor; auto.
    + apply Z.leb_gt in E. constructor; [exact IH|].
      destruct l as [|z l]; simpl.
      * constructor. by apply cmp_flip.
      * destruct (cmp x z <=? 0); constructor.
        -- by apply cmp_flip.
        -- by inversion Hhd.
Qed.

Lemma sortBy_sorted l : Sorted (λ a b, cmp a b <= 0) (sortBy cmp l).
Proof.
  induction l as [|x l IH]; simpl; [constructor|].
  by apply insertBy_sorted.
Qed.
End SortFacts.

Lemma cmpCip_flip x y : 0 < cmpCip x y → cmpCip y x <= 0.
Proof.
  unfold cmpCip. destruct (Js.lt (cipNorm x) (cipNorm y)); [lia|].
  destruct (Js.lt (cipNorm y) (cipNorm x)); lia.
Qed.

Lemma cmpCip_codeLe x y : cmpCip x y <= 0 → codeLe x y.
Proof.
  unfold cmpCip, codeLe, Js.lt, String.ltb, String.leb.
  rewrite (String.compare_antisym (cipNorm x) (cipNorm y)).
  destruct (String.compare (cipNorm y) (cipNorm x)); simpl; intros; auto; lia.
Qed.

Lemma string_leb_trans a b c :
  String.leb a b = true → String.leb b c = true → String.leb a c = true.
Proof.
  unfold String.leb. revert b c.
  induction a as [|x a IH]; intros [|y b] [|z c]; simpl; try done.
  unfold Ascii.compare.
  destruct (N.compare_spec (N_of_ascii x) (N_of_ascii y)) as [Exy|Lxy|Gxy];
    destruct (N.compare_spec (N_of_ascii y) (N_of_ascii z)) as [Eyz|Lyz|Gyz];
    try done.
  - rewrite Exy, Eyz, N.compare_refl. apply IH.
  - rewrite Exy. by rewrite (proj2 (N.compare_lt_iff _ _) Lyz).
  - rewrite <- Eyz. by rewrite (proj2 (N.compare_lt_iff _ _) Lxy).
  - by rewrite (proj2 (N.compare_lt_iff _ _) (N.lt_trans _ _ _ Lxy Lyz)).
Qed.

Lemma codeLe_trans : Relations_1.Transitive codeLe.
Proof. intros x y z. apply string_leb_trans. Qed.

(** The sorted result is in ascending order of code: each record's code is
    at most the code of every record after it. *)
Lemma sortBy_cmpCip_sorted l : StronglySorted codeLe (sortBy cmpCip l).
Proof.
  apply Sorted_StronglySorted; [exact codeLe_trans|].
  pose proof (sortBy_sorted cmpCip cmpCip_flip l) as H.
  induction H as [|x l' Hs IH Hhd]; constructor; auto.
  destruct Hhd; constructor. by apply cmpCip_codeLe.
Qed.

(** ** The scan loop *)

Section ScanFacts.
Variables (hit : CipRecord → bool) (stemOnly : bool) (limit : Z).

Lemma scan_skip r rs acc :
  scanned stemOnly r = false →
  scan hit stemOnly limit (r :: rs) acc = scan hit stemOnly limit rs acc.
Proof.
  unfold scanned. intros H%negb_false_iff. simpl. by rewrite H.
Qed.

Lemma scan_step r rs acc :
  scanned stemOnly r = true →
  scan hit stemOnly limit (r :: rs) acc =
    let acc' := if hit r then acc ++ [r] else acc in
    if limit <=? Z.of_nat (length acc') then acc'
    else scan hit stemOnly limit rs acc'.
Proof.
  unfold scanned. intros H%negb_true_iff. simpl. by rewrite H.
Qed.

(** When the limit is not reached the loop collects every match. *)
Lemma scan_all rs acc :
  Z.of_nat (length acc + length (matching hit stemOnly rs)) <= limit →
  scan hit stemOnly limit rs acc = acc ++ matching hit stemOnly rs.
Proof.
  revert acc. induction rs as [|r rs IH]; intros acc Hlim.
  - simpl. by rewrite app_nil_r.
  - destruct (scanned stemOnly r) eqn:Es.
    + rewrite scan_step by done. unfold matching in *. simpl in *.
      rewrite Es in *. simpl in *.
      destruct (hit r); simpl in *.
      * destruct (limit <=? _) eqn:E.
        -- apply Z.leb_le in E. rewrite length_app in E. simpl in E.
           destruct (List.filter _ rs); [done|simpl in Hlim; lia].
        -- rewrite IH; [by rewrite <- app_assoc|].
           rewrite length_app. simpl. lia.
      * destruct (limit <=? _) eqn:E.
        -- apply Z.leb_le in E.
           destruct (List.filter _ rs); [by rewrite app_nil_r|simpl in Hlim; lia].
        -- by apply IH.
    + rewrite scan_skip by done. unfold matching in *. simpl in *.
      rewrite Es in *. simpl in *. by apply IH.
Qed.

(** The loop never collects more than [limit] records when [limit] is
    positive. *)
Lemma scan_length rs acc :
  Z.of_nat (length acc) < limit →
  Z.of_nat (length (scan hit stemOnly limit rs acc)) <= limit.
Proof.
  revert acc. induction rs as [|r rs IH]; intros acc Hacc; simpl; [lia|].
  destruct (stemOnly && negb (eligible r)); [by apply IH|].
  destruct (limit <=? _) eqn:E.
  - destruct (hit r); [|lia]. rewrite length_app. simpl. lia.
  - apply Z.leb_gt in E. by apply IH.
Qed.

(** Whatever the limit, the loop collects only scanned records that hit. *)
Lemma scan_In rs acc x :
  In x (scan hit stemOnly limit rs acc) →
  In x acc ∨ (In x rs ∧ scanned stemOnly x = true ∧ hit x = true).
Proof.
  revert acc. induction rs as [|r rs IH]; intros acc; simpl; [auto|].
  destruct (stemOnly && negb (eligible r)) eqn:Es.
  - intros [?|(?&?&?)]%IH; auto.
  - assert (scanned stemOnly r = true) by (unfold scanned; by rewrite Es).
    destruct (hit r) eqn:Eh.
    + destruct (limit <=? _).
      * intros [?|[<-|[]]]%in_app_or; auto.
      * intros [[?|[<-|[]]]%in_app_or|(?&?&?)]%IH; auto.
    + destruct (limit <=? _); [auto|].
      intros [?|(?&?&?)]%IH; auto.
Qed.

(** With a limit of zero or less the loop stops after the first record it
    looks at. *)
Lemma scan_nonpositive rs :
  limit <= 0 →
  scan hit stemOnly limit rs [] =
    match List.filter (scanned stemOnly) rs with
    | [] => []
    | r :: _ => if hit r then [r] else []
    end.
Proof.
  intros Hl. induction rs as [|r rs IH]; [done|].
  destruct (scanned stemOnly r) eqn:Es.
  - rewrite scan_step by done. simpl. rewrite Es.
    destruct (hit r); simpl; destruct (limit <=? _) eqn:E; try done;
      apply Z.leb_gt in E; simpl in E; lia.
  - rewrite scan_skip by done. simpl. by rewrite Es.
Qed.
End ScanFacts.

(** ** The exact-match map *)

Lemma byCip_snoc rs r :
  byCip (rs ++ [r]) = <[cipNorm r := r]> (byCip rs).
Proof. unfold byCip. by rewrite foldl_app. Qed.

Lemma byCip_lookup_Some rs k r :
  byCip rs !! k = Some r → In r rs ∧ cipNorm r = k.
Proof.
  induction rs as [|x rs IH] using rev_ind.
  - unfold byCip. simpl. by rewrite lookup_empty.
  - rewrite byCip_snoc. destruct (decide (cipNorm x = k)) as [<-|Hne].
    + rewrite lookup_insert_eq. intros [= ->]. split; [|done].
      apply in_or_app. right. by left.
    + rewrite lookup_insert_ne by done. intros [? ?]%IH. split; [|done].
      apply in_or_app. by left.
Qed.

Lemma byCip_lookup_None rs k :
  byCip rs !! k = None ↔ ∀ r, In r rs → cipNorm r ≠ k.
Proof.
  induction rs as [|x rs IH] using rev_ind.
  - unfold byCip. simpl. rewrite lookup_empty. split; [by intros _ ? []|done].
  - rewrite byCip_snoc. destruct (decide (cipNorm x = k)) as [<-|Hne].
    + rewrite lookup_insert_eq. split; [done|].
      intros H. exfalso. apply (H x); [|done]. apply in_or_app. right. by left.
    + rewrite lookup_insert_ne by done. rewrite IH. split.
      * intros H r [?|[<-|[]]]%in_app_or; auto.
      * intros H r Hr. apply H, in_or_app. by left.
Qed.

(** With one record per code the map finds each record under its code. *)
Lemma byCip_lookup_unique rs r :
  In r rs →
  (∀ r', In r' rs → cipNorm r' = cipNorm r → r' = r) →
  byCip rs !! cipNorm r = Some r.
Proof.
  intros Hin Huniq.
  destruct (byCip rs !! cipNorm r) as [r'|] eqn:E.
  - apply byCip_lookup_Some in E as [Hin' Heq]. f_equal. by apply Huniq.
  - exfalso. by apply (proj1 (byCip_lookup_None rs _) E r).
Qed.

(** The exact-match test succeeds on the one record that carries the
    canonical form of the query. *)
Lemma exactMatch_unique records q r :
  In r records →
  normalizeCipInput q = cipNorm r →
  normalizeCipInput q ≠ EmptyString →
  (∀ r', In r' records → cipNorm r' = cipNorm r → r' = r) →
  exactMatch records (normalizeCipInput (Js.trim q)) = Some r.
Proof.
  intros Hin Hcode Hne Huniq. unfold exactMatch.
  rewrite normalizeCipInput_trim.
  destruct (normalizeCipInput q) eqn:E; [done|]. simpl.
  rewrite Hcode. by apply byCip_lookup_unique.
Qed.

(** ** [search], branch by branch *)

Lemma search_exact records q stemOnly limit r :
  exactMatch records (canon q) = Some r →
  search records q stemOnly limit =
    if negb stemOnly || eligible r then [r] else [].
Proof. unfold search, canon. by intros ->. Qed.

Lemma search_scan records q stemOnly limit :
  exactMatch records (canon q) = None →
  search records q stemOnly limit =
    sortBy cmpCip
      (scan (isHit (Js.trim q) (normalizeText (Js.trim q)) (canon q))
         stemOnly limit records []).
Proof. unfold search, canon. by intros ->. Qed.

Lemma isHit_or query qText qCipCanon r :
  isHit query qText qCipCanon r =
    matchCipPrefix r query
    || (Js.truthy qText && Js.includes (titleNorm r) qText)
    || (Js.truthy qCipCanon && Js.startsWith (cipNorm r) (Js.slice0 5 qCipCanon)).
Proof.
  unfold isHit.
  destruct (matchCipPrefix r query), (Js.truthy qText),
    (Js.includes (titleNorm r) qText), (Js.truthy qCipCanon); simpl;
    try reflexivity; by destruct (Js.startsWith _ _).
Qed.

Lemma search_In records q stemOnly limit r :
  exactMatch records (canon q) = None →
  In r (search records q stemOnly limit) →
  In r records ∧ scanned stemOnly r = true ∧ queryHit q r = true.
Proof.
  intros He. rewrite (search_scan _ _ _ _ He), sortBy_In.
  intros [[]|H]%scan_In. exact H.
Qed.

Lemma search_all records q stemOnly limit :
  exactMatch records (canon q) = None →
  Z.of_nat (length (matching (queryHit q) stemOnly records)) <= limit →
  search records q stemOnly limit =
    sortBy cmpCip (matching (queryHit q) stemOnly records).
Proof.
  intros He Hl. rewrite (search_scan _ _ _ _ He).
  fold (queryHit q). by rewrite scan_all.
Qed.

(** C8.  Whatever the collection, the query and the STEM flag, [search]
    returns at most [limit] records, for every limit the operation admits
    (a positive integer): the exact branch returns at most one record and
    the loop stops as soon as [limit] records are collected. *)
Theorem search_length_le_limit records q stemOnly limit :
  0 < limit →
  Z.of_nat (length (search records q stemOnly limit)) <= limit.
Proof.
  intros Hpos. destruct (exactMatch records (canon q)) as [r|] eqn:He.
  - rewrite (search_exact _ _ _ _ _ He).
    destruct (negb stemOnly || eligible r); simpl; lia.
  - rewrite (search_scan _ _ _ _ He), sortBy_length.
    apply scan_length. simpl. lia.
Qed.

Lemma search_length_le_limit_witness :
  Z.of_nat (length (search [sample "14.0901" "Computer Engineering" true;
                            sample "11.0701" "Computer Science" true]
                      "computer" false 1)) <= 1.
Proof. apply search_length_le_limit. lia. Defined.

(** C10 (as the code has it).  With a limit of zero and a query that is
    not an exact code, the loop stops after the first record it looks at
    (the first record, or the first eligible one under the STEM filter):
    the result is that record alone when it is a hit and the empty list
    when it is not, whatever the later records are. *)
Theorem search_limit_zero records q stemOnly :
  exactMatch records (canon q) = None →
  search records q stemOnly 0 =
    match List.filter (scanned stemOnly) records with
    | [] => []
    | r :: _ => if queryHit q r then [r] else []
    end.
Proof.
  intros He. rewrite (search_scan _ _ _ _ He).
  rewrite scan_nonpositive by lia. fold (queryHit q).
  destruct (List.filter _ records) as [|r ?]; [done|].
  fold (queryHit q r). destruct (queryHit q r); reflexivity.
Qed.

Lemma search_limit_zero_witness :
  let records := [sample "11.0701" "Computer Science" true;
                  sample "14.0901" "Computer Engineering" true] in
  search records "computer" false 0 =
    match List.filter (scanned false) records with
    | [] => []
    | r :: _ => if queryHit "computer" r then [r] else []
    end.
Proof. apply search_limit_zero. reflexivity. Defined.

Example search_limit_zero_first_hit :
  search [sample "11.0701" "Computer Science" true;
          sample "14.0901" "Computer Engineering" true] "computer" false 0 =
    [sample "11.0701" "Computer Science" true].
Proof. reflexivity. Qed.

(** C10 as worded fails: a matching record that is not the first one
    scanned does not make the result a one-element list. *)
Lemma search_limit_zero_later_match :
  let records := [sample "11.0101" "Agriculture" true;
                  sample "11.0701" "Computer Science" true] in
  exactMatch records (canon "computer") = None
  ∧ (∃ r, In r records ∧ queryHit "computer" r = true)
  ∧ search records "computer" false 0 = [].
Proof.
  repeat split.
  exists (sample "11.0701" "Computer Science" true).
  split; [right; by left|reflexivity].
Qed.

Lemma matching_stem_In hit records r :
  In r (matching hit true records) ↔
  In r (matching hit false records) ∧ eligible r = true.
Proof.
  unfold matching, scanned. rewrite !filter_In. simpl.
  destruct (eligible r), (hit r); simpl; intuition congruence.
Qed.

Lemma matching_stem_length hit records :
  (length (matching hit true records) ≤ length (matching hit false records))%nat.
Proof.
  unfold matching, scanned. induction records as [|r rs IH]; simpl; [done|].
  destruct (eligible r), (hit r); simpl in *; lia.
Qed.

(** C7 (as the code has it).  When the limit is at least the number of
    records the unfiltered scan accepts, so that the unfiltered search loses
    no hit to the limit, every record of [search q true limit] is an
    eligible record of [search q false limit]. *)
Theorem search_stem_subset records q limit :
  Z.of_nat (length (List.filter (queryHit q) records)) <= limit →
  ∀ r, In r (search records q true limit) →
       In r (search records q false limit) ∧ eligible r = true.
Proof.
  intros Hl r.
  destruct (exactMatch records (canon q)) as [x|] eqn:He.
  - rewrite !(search_exact _ _ _ _ _ He). simpl.
    destruct (eligible x) eqn:Ex; simpl; [|done].
    intros [<-|[]]. auto.
  - change (List.filter (queryHit q) records)
      with (matching (queryHit q) false records) in Hl.
    pose proof (matching_stem_length (queryHit q) records) as Hle.
    rewrite (search_all records q true limit He) by lia.
    rewrite (search_all records q false limit He) by lia.
    rewrite !sortBy_In. apply matching_stem_In.
Qed.

Lemma search_stem_subset_witness :
  let records := [sample "11.0701" "Computer Science" false;
                  sample "14.0901" "Computer Engineering" true] in
  let r := sample "14.0901" "Computer Engineering" true in
  In r (search records "computer" false 2) ∧ eligible r = true.
Proof.
  apply (search_stem_subset _ "computer" 2).
  - vm_compute. discriminate.
  - left. reflexivity.
Defined.

(** C7 as worded fails when the limit cuts the unfiltered scan short: the
    filtered search then reaches an eligible record that the unfiltered one
    never gets to. *)
Lemma search_stem_not_subset :
  let records := [sample "11.0701" "Computer Science" false;
                  sample "14.0901" "Computer Engineering" true] in
  ∃ r, In r (search records "computer" true 1)
       ∧ ¬ (In r (search records "computer" false 1) ∧ eligible r = true).
Proof.
  exists (sample "14.0901" "Computer Engineering" true). split.
  - left. reflexivity.
  - intros [[H|[]] _]. discriminate H.
Qed.

(** C3.  When a record of the collection carries the code the query
    canonicalises to, and it is the only record with that code, [search]
    returns that record alone if it passes the STEM filter and nothing
    otherwise; no other record is looked at, whatever its title says, and
    the limit plays no part. *)
Theorem search_exact_code records q stemOnly limit r :
  In r records →
  normalizeCipInput q = cipNorm r →
  normalizeCipInput q ≠ EmptyString →
  (∀ r', In r' records → cipNorm r' = cipNorm r → r' = r) →
  search records q stemOnly limit =
    if negb stemOnly || eligible r then [r] else [].
Proof.
  intros Hin Hcode Hne Huniq.
  apply search_exact. by apply exactMatch_unique.
Qed.

Lemma search_exact_code_witness :
  search [sample "14.0901" "Computer Engineering" true;
          sample "11.0701" "See also 14.0901" true] "14.0901" true 50 =
    [sample "14.0901" "Computer Engineering" true].
Proof.
  apply (search_exact_code _ "14.0901" true 50
           (sample "14.0901" "Computer Engineering" true)).
  - left. reflexivity.
  - reflexivity.
  - discriminate.
  - intros r' [<-|[<-|[]]]; [reflexivity|discriminate].
Defined.

Lemma queryHit_empty q r : Js.trim q = EmptyString → queryHit q r = false.
Proof. unfold queryHit, canon. intros ->. reflexivity. Qed.

(** C2 (as the code has it).  For an empty or all-blank query [search]
    returns the empty sequence, for either value of the STEM flag and any
    limit: each of the three tests of the loop is guarded by a non-empty
    query.  Browsing is what the page script's [searchIndex] does: there an
    empty query returns the first 50 records, the eligible ones under the
    STEM filter, in stored order. *)
Theorem search_empty_query records entries q stemOnly limit :
  Js.trim q = EmptyString →
  search records q stemOnly limit = []
  ∧ searchIndex entries q stemOnly =
      take 50 (if stemOnly then List.filter stemEligible entries else entries).
Proof.
  intros Hq. split.
  - assert (He : exactMatch records (canon q) = None).
    { unfold exactMatch, canon. by rewrite Hq. }
    destruct (search records q stemOnly limit) as [|r l] eqn:E; [done|].
    assert (Hin : In r (search records q stemOnly limit)) by (rewrite E; by left).
    apply (search_In _ _ _ _ _ He) in Hin as (_ & _ & Hhit).
    by rewrite queryHit_empty in Hhit.
  - unfold searchIndex. rewrite Hq. reflexivity.
Qed.

Lemma search_empty_query_witness :
  search [sample "14.0901" "Computer Engineering" true] "  " false 10 = []
  ∧ searchIndex [entryOf "14.0901" "Computer Engineering" true] "  " false =
      take 50 [entryOf "14.0901" "Computer Engineering" true].
Proof.
  apply (search_empty_query _ _ "  " false 10). reflexivity.
Defined.

(** C2 as worded fails for [search]: an empty query does not browse. *)
Lemma search_empty_query_no_browse :
  let records := [sample "14.0901" "Computer Engineering" true;
                  sample "11.0701" "Computer Science" false] in
  search records EmptyString false 10 ≠ take 10 records
  ∧ search records EmptyString true 10 ≠ take 10 (List.filter eligible records).
Proof. split; discriminate. Qed.

(** ** Family and subfamily queries *)

Lemma re_family_noWs t : re_family t = true → noWs t = true.
Proof.
  intros (a & b & -> & Ha & Hb)%re_family_inv. simpl.
  by rewrite (digit_not_ws a Ha), (digit_not_ws b Hb).
Qed.

Lemma normalizeCipInput_family t :
  re_family t = true → normalizeCipInput t = t +:+ ".0000".
Proof.
  intros Hf. pose proof (re_family_noWs t Hf) as Hn.
  unfold normalizeCipInput. rewrite (trim_noWs t Hn).
  destruct (re_family_inv t Hf) as (a & b & -> & Ha & Hb). simpl.
  rewrite (digit_not_bracket a Ha), (digit_not_bracket b Hb). simpl.
  by rewrite Ha, Hb.
Qed.

Lemma matchCipPrefix_family r q :
  re_family (Js.trim q) = true →
  matchCipPrefix r (Js.trim q) = String.eqb (cipFamily r) (Js.trim q).
Proof.
  intros Hf. unfold matchCipPrefix. rewrite trim_idem, Hf.
  by destruct (re_family_inv _ Hf) as (a & b & -> & _).
Qed.

Lemma queryHit_subfamily_1409 r :
  queryHit "14.09" r =
    Js.startsWith (cipNorm r) "14.09" || Js.includes (titleNorm r) "14.09".
Proof.
  unfold queryHit. rewrite isHit_or.
  change (matchCipPrefix r (Js.trim "14.09"))
    with (Js.startsWith (cipNorm r) "14.09").
  change (normalizeText (Js.trim "14.09")) with "14.09".
  change (Js.slice0 5 (canon "14.09")) with "14.09".
  change (Js.truthy "14.09") with true.
  change (Js.truthy (canon "14.09")) with true.
  destruct (Js.startsWith (cipNorm r) "14.09"), (Js.includes (titleNorm r) "14.09");
    reflexivity.
Qed.

(** C4 (as the code has it).  In a collection with no record of code
    [14.0900], searching ["14.09"] without the STEM filter and with a limit
    of at least the number of accepted records returns, in ascending code
    order, exactly the records whose code starts with ["14.09"] or whose
    normalised title contains the text ["14.09"].  In a collection where
    one record has the code [14.0900] the search returns that record alone. *)
Theorem search_subfamily records limit :
  ((∀ r, In r records → cipNorm r ≠ "14.0900") →
   Z.of_nat (length (List.filter (queryHit "14.09") records)) <= limit →
   StronglySorted codeLe (search records "14.09" false limit)
   ∧ ∀ r, In r (search records "14.09" false limit) ↔
          In r records
          ∧ (Js.startsWith (cipNorm r) "14.09" = true
             ∨ Js.includes (titleNorm r) "14.09" = true))
  ∧ (∀ r0, In r0 records → cipNorm r0 = "14.0900" →
       (∀ r', In r' records → cipNorm r' = "14.0900" → r' = r0) →
       search records "14.09" false limit = [r0]).
Proof.
  split.
  - intros Hno Hl.
    assert (He : exactMatch records (canon "14.09") = None).
    { change (canon "14.09") with "14.0900". unfold exactMatch. simpl.
      by apply byCip_lookup_None. }
    rewrite (search_all records "14.09" false limit He) by exact Hl.
    split; [apply sortBy_cmpCip_sorted|].
    intros r. rewrite sortBy_In. unfold matching. rewrite filter_In. simpl.
    rewrite queryHit_subfamily_1409, orb_true_iff. tauto.
  - intros r0 Hin Hcode Huniq.
    rewrite (search_exact records "14.09" false limit r0); [done|].
    apply exactMatch_unique; [done|by rewrite Hcode|discriminate|].
    intros r' Hr' E. apply Huniq; [done|]. by rewrite E.
Qed.

Lemma search_subfamily_witness :
  let records := [sample "14.0903" "Computer Software Engineering" true;
                  sample "11.0701" "Computer Science" true;
                  sample "14.0901" "Computer Engineering" true] in
  StronglySorted codeLe (search records "14.09" false 2)
  ∧ ∀ r, In r (search records "14.09" false 2) ↔
         In r records
         ∧ (Js.startsWith (cipNorm r) "14.09" = true
            ∨ Js.includes (titleNorm r) "14.09" = true).
Proof.
  apply (proj1 (search_subfamily _ 2)).
  - intros r [<-|[<-|[<-|[]]]]; discriminate.
  - vm_compute. discriminate.
Defined.

(** C4 as worded fails on both counts: with a record [14.0900] present the
    other records of the subfamily are not returned, and a record of
    another subfamily whose title carries the text is returned. *)
Lemma search_subfamily_not_exactly_prefix :
  (let records := [sample "14.0900" "Computer Engineering, General" true;
                   sample "14.0901" "Computer Engineering" true] in
   let r := sample "14.0901" "Computer Engineering" true in
   In r records ∧ Js.startsWith (cipNorm r) "14.09" = true
   ∧ ¬ In r (search records "14.09" false 50))
  ∧ (let records := [sample "14.0901" "Computer Engineering" true;
                     sample "15.0000" "Technologies related to 14.09" true] in
     let r := sample "15.0000" "Technologies related to 14.09" true in
     Js.startsWith (cipNorm r) "14.09" = false
     ∧ In r (search records "14.09" false 50)).
Proof.
  split; simpl.
  - split; [right; by left|]. split; [reflexivity|].
    intros [H|[]]. discriminate H.
  - split; [reflexivity|]. right. left. reflexivity.
Qed.

(** C5 (as the code has it).  A query that is exactly two digits once
    trimmed canonicalises to [NN.0000] and is answered by equality on
    [cipFamily]: when no record has the code [NN.0000] and the limit is at
    least the number of accepted records, every record whose [cipFamily]
    equals the query (and that is eligible, under the STEM filter) is
    returned, whatever the rest of its code; the result is in ascending code
    order. *)
Theorem search_family records q stemOnly limit :
  re_family (Js.trim q) = true →
  (∀ r, In r records → cipNorm r ≠ Js.trim q +:+ ".0000") →
  Z.of_nat (length (matching (queryHit q) stemOnly records)) <= limit →
  canon q = Js.trim q +:+ ".0000"
  ∧ StronglySorted codeLe (search records q stemOnly limit)
  ∧ ∀ r, In r records → cipFamily r = Js.trim q →
         (stemOnly = true → eligible r = true) →
         In r (search records q stemOnly limit).
Proof.
  intros Hf Hno Hl.
  assert (Hc : canon q = Js.trim q +:+ ".0000")
    by (by apply normalizeCipInput_family).
  assert (He : exactMatch records (canon q) = None).
  { unfold exactMatch. rewrite Hc.
    destruct (Js.truthy _); [|done]. by apply byCip_lookup_None. }
  rewrite (search_all records q stemOnly limit He) by exact Hl.
  split; [done|]. split; [apply sortBy_cmpCip_sorted|].
  intros r Hin Hfam Hstem. rewrite sortBy_In. unfold matching.
  rewrite filter_In. split; [done|]. apply andb_true_iff. split.
  - unfold scanned. destruct stemOnly; [|done]. by rewrite Hstem.
  - unfold queryHit. rewrite isHit_or, (matchCipPrefix_family r q Hf), Hfam.
    by rewrite String.eqb_refl.
Qed.

Lemma search_family_witness :
  let records := [sample "14.0901" "Computer Engineering" true;
                  sample "11.0701" "Computer Science" true;
                  sample "14.0101" "Engineering, General" false] in
  canon " 14 " = "14.0000"
  ∧ StronglySorted codeLe (search records " 14 " false 2)
  ∧ ∀ r, In r records → cipFamily r = "14" →
         (false = true → eligible r = true) →
         In r (search records " 14 " false 2).
Proof.
  apply (search_family _ " 14 " false 2).
  - reflexivity.
  - intros r [<-|[<-|[<-|[]]]]; discriminate.
  - vm_compute. discriminate.
Defined.

(** C5 as worded fails: a query whose canonical form ends in [.0000] but
    that is not two bare digits goes through the code-prefix test on
    ["14.00"], not through the family test. *)
Lemma search_family_not_by_canonical_form :
  let r := sample "14.0901" "Computer Engineering" true in
  Js.endsWith (canon "14.0000") ".0000" = true
  ∧ cipFamily r = Js.slice0 2 (canon "14.0000")
  ∧ search [r] "14.0000" false 50 = [].
Proof. repeat split. Qed.

(** The page script differs here: any canonical form ending in [.0000]
    selects the whole family, by the code prefix ["14."]. *)
Example searchIndex_family_by_canonical_form :
  map cip (searchIndex [computing; compEng; eeTech] "14.0000" false) = ["14.0901"]
  ∧ map cipNorm (search (loadRecords [computing; compEng; eeTech]) "14.0000" false 50) = [].
Proof. split; reflexivity. Qed.

(** ** Substrings *)

Lemma append_assoc (a b c : string) : (a +:+ b) +:+ c = a +:+ b +:+ c.
Proof. induction a as [|x a IH]; simpl; [done|]. by rewrite IH. Qed.

Lemma append_empty_r (a : string) : a +:+ EmptyString = a.
Proof. induction a as [|x a IH]; simpl; [done|]. by rewrite IH. Qed.

Lemma startsWith_spec s p :
  Js.startsWith s p = true ↔ ∃ post, s = p +:+ post.
Proof.
  revert s. induction p as [|b p IH]; intros s; simpl.
  - split; [eauto|done].
  - destruct s as [|a s].
    + split; [done|]. by intros [? ?].
    + rewrite andb_true_iff, IH, Ascii.eqb_eq. split.
      * intros [-> [post ->]]. eauto.
      * intros [post [= -> ->]]. eauto.
Qed.

Lemma Infix_cons t c s : Infix t s → Infix t (String c s).
Proof. intros (pre & post & ->). by exists (String c pre), post. Qed.

Lemma includes_spec s t : Js.includes s t = true ↔ Infix t s.
Proof.
  induction s as [|c s IH]; simpl.
  - rewrite orb_false_r, startsWith_spec. split.
    + intros [post H]. by exists EmptyString, post.
    + intros ([|? ?] & post & H); [eauto|discriminate H].
  - rewrite orb_true_iff, startsWith_spec, IH. split.
    + intros [[post H]|H]; [by exists EmptyString, post|by apply Infix_cons].
    + intros ([|x pre] & post & H).
      * left. eauto.
      * right. simpl in H. injection H as _ ->. by exists pre, post.
Qed.

Lemma Infix_refl s : Infix s s.
Proof. exists EmptyString, EmptyString. simpl. by rewrite append_empty_r. Qed.

Lemma Infix_trans a b c : Infix a b → Infix b c → Infix a c.
Proof.
  intros (p1 & s1 & ->) (p2 & s2 & ->).
  exists (p2 +:+ p1), (s1 +:+ s2). by rewrite !append_assoc.
Qed.

Lemma Infix_prefix t post : Infix t (t +:+ post).
Proof. by exists EmptyString, post. Qed.

Lemma toLowerCase_app a b :
  Js.toLowerCase (a +:+ b) = Js.toLowerCase a +:+ Js.toLowerCase b.
Proof. induction a as [|x a IH]; simpl; [done|]. by rewrite IH. Qed.

(** ** Trimming, lower case and the pieces of a split *)

Lemma trimStart_suffix s : ∃ pre, s = pre +:+ Js.trimStart s.
Proof.
  induction s as [|c s [pre IH]]; simpl; [by exists EmptyString|].
  destruct (Js.isWs c).
  - exists (String c pre). simpl. by rewrite <- IH.
  - by exists EmptyString.
Qed.

Lemma trimEnd_prefix s : ∃ post, s = Js.trimEnd s +:+ post.
Proof.
  induction s as [|c s [post IH]]; simpl; [by exists EmptyString|].
  destruct (Js.isWs c && Js.allWs s).
  - by exists (String c s).
  - exists post. simpl. by rewrite <- IH.
Qed.

Lemma Infix_trim s : Infix (Js.trim s) s.
Proof.
  unfold Js.trim.
  destruct (trimStart_suffix s) as [pre Hs].
  destruct (trimEnd_prefix (Js.trimStart s)) as [post He].
  exists pre, post. by rewrite <- He.
Qed.

Lemma allWs_lower s : Js.allWs (Js.toLowerCase s) = Js.allWs s.
Proof.
  induction s as [|c s IH]; simpl; [done|]. by rewrite lowerChar_ws, IH.
Qed.

Lemma trimStart_lower s :
  Js.trimStart (Js.toLowerCase s) = Js.toLowerCase (Js.trimStart s).
Proof.
  induction s as [|c s IH]; simpl; [done|].
  rewrite lowerChar_ws. by destruct (Js.isWs c).
Qed.

Lemma trimEnd_lower s :
  Js.trimEnd (Js.toLowerCase s) = Js.toLowerCase (Js.trimEnd s).
Proof.
  induction s as [|c s IH]; simpl; [done|].
  rewrite lowerChar_ws, allWs_lower.
  destruct (Js.isWs c && Js.allWs s); simpl; [done|]. by rewrite IH.
Qed.

Lemma trim_lower s : Js.trim (Js.toLowerCase s) = Js.toLowerCase (Js.trim s).
Proof. unfold Js.trim. by rewrite trimStart_lower, trimEnd_lower. Qed.

Lemma splitWs_first s :
  ∃ p ps, Js.splitWs s = p :: ps ∧ noWs p = true ∧ ∃ post, s = p +:+ post.
Proof.
  induction s as [|c s (p & ps & E & Hn & post & Hp)]; simpl.
  - exists EmptyString, []. repeat split. by exists EmptyString.
  - destruct (Js.isWs c) eqn:Ec.
    + destruct (Js.startsWithWs s) eqn:Es.
      * destruct s as [|d s]; [done|]. simpl in Es.
        revert E. simpl. rewrite Es. destruct (Js.startsWithWs s).
        -- intros E. exists p, ps. split; [done|]. split; [done|].
           destruct p as [|x p]; [by exists (String c (String d s))|].
           simpl in Hn. injection Hp as -> _. by rewrite Es in Hn.
        -- intros [= <- <-]. exists EmptyString, (Js.splitWs s). repeat split.
           by exists (String c (String d s)).
      * exists EmptyString, (Js.splitWs s). repeat split. by exists (String c s).
    + rewrite E. simpl. exists (String c p), ps. split; [done|].
      split; [simpl; by rewrite Ec|].
      exists post. simpl. by rewrite <- Hp.
Qed.

(** Every piece of the split is free of white space and occurs in the
    string. *)
Lemma splitWs_piece s p :
  In p (Js.splitWs s) → noWs p = true ∧ Infix p s.
Proof.
  induction s as [|c s IH]; simpl.
  - intros [<-|[]]. split; [done|apply Infix_refl].
  - destruct (Js.isWs c) eqn:Ec.
    + destruct (Js.startsWithWs s).
      * intros [? ?]%IH. split; [done|by apply Infix_cons].
      * intros [<-|[? ?]%IH].
        -- split; [done|]. by exists EmptyString, (String c s).
        -- split; [done|by apply Infix_cons].
    + destruct (splitWs_first s) as (p0 & ps & E & Hn & post & Hp).
      rewrite E in *. simpl. intros [<-|Hin].
      * split; [simpl; by rewrite Ec|].
        exists EmptyString, post. simpl. by rewrite <- Hp.
      * destruct (IH (or_intror Hin)) as [? ?].
        split; [done|by apply Infix_cons].
Qed.

(** A run without white space that occurs in the string occurs in one of
    the pieces of the split. *)
Lemma splitWs_prefix t post :
  noWs t = true →
  ∃ p ps x, Js.splitWs (t +:+ post) = p :: ps ∧ p = t +:+ x.
Proof.
  induction t as [|c t IH]; simpl.
  - intros _. destruct (splitWs_first post) as (p & ps & E & _).
    exists p, ps, p. by rewrite E.
  - intros [Hc Ht]%andb_true_iff. apply negb_true_iff in Hc. rewrite Hc.
    destruct (IH Ht) as (p & ps & x & E & ->). rewrite E. simpl.
    by exists (String c (t +:+ x)), ps, x.
Qed.

Lemma splitWs_covers t s :
  noWs t = true → Infix t s → ∃ p, In p (Js.splitWs s) ∧ Infix t p.
Proof.
  intros Ht (pre & post & ->).
  induction pre as [|c pre (p & Hin & Hp)]; simpl.
  - destruct (splitWs_prefix t post Ht) as (p & ps & x & E & ->).
    exists (t +:+ x). rewrite E. split; [by left|apply Infix_prefix].
  - destruct (Js.isWs c).
    + destruct (Js.startsWithWs _); exists p; split; auto. by right.
    + destruct (Js.splitWs (pre +:+ t +:+ post)) as [|p0 ps]; [done|].
      simpl. destruct Hin as [<-|Hin].
      * exists (String c p0). split; [by left|by apply Infix_cons].
      * exists p. split; [by right|done].
Qed.

Lemma startsWithWs_collapse s :
  Js.startsWithWs (Js.collapseWs s) = Js.startsWithWs s.
Proof.
  induction s as [|c s IH]; simpl; [done|].
  destruct (Js.isWs c) eqn:Ec; simpl; [|done].
  destruct (Js.startsWithWs s) eqn:Es; [by rewrite IH|done].
Qed.

Lemma splitWs_collapse s : Js.splitWs (Js.collapseWs s) = Js.splitWs s.
Proof.
  induction s as [|c s IH]; simpl; [done|].
  destruct (Js.isWs c) eqn:Ec.
  - destruct (Js.startsWithWs s) eqn:Es; [done|].
    simpl. by rewrite startsWithWs_collapse, Es, IH.
  - simpl. by rewrite Ec, IH.
Qed.

Lemma splitWs_trimStart s p :
  In p (Js.splitWs s) → p ≠ EmptyString → In p (Js.splitWs (Js.trimStart s)).
Proof.
  induction s as [|c s IH]; simpl; [done|].
  destruct (Js.isWs c) eqn:Ec.
  - destruct (Js.startsWithWs s); [done|].
    intros [<-|?]; [done|auto].
  - simpl. by rewrite Ec.
Qed.

Lemma splitWs_allWs s p : Js.allWs s = true → In p (Js.splitWs s) → p = EmptyString.
Proof.
  induction s as [|c s IH]; simpl.
  - by intros _ [<-|[]].
  - intros [-> Hs]%andb_true_iff.
    destruct (Js.startsWithWs s); [auto|]. intros [<-|?]; auto.
Qed.

Lemma startsWithWs_trimEnd s :
  Js.allWs s = false → Js.startsWithWs (Js.trimEnd s) = Js.startsWithWs s.
Proof.
  destruct s as [|c s]; simpl; [done|]. by intros ->.
Qed.

Lemma splitWs_trimEnd s :
  ∃ extra, Js.splitWs s = Js.splitWs (Js.trimEnd s) ++ extra
           ∧ ∀ e, In e extra → e = EmptyString.
Proof.
  induction s as [|c s (extra & IH & Hex)]; simpl.
  - exists []. by split.
  - destruct (Js.isWs c && Js.allWs s) eqn:E.
    + destruct (splitWs_first (String c s)) as (p & ps & Ep & _).
      assert (Hall : ∀ e, In e (Js.splitWs (String c s)) → e = EmptyString).
      { intros e. apply splitWs_allWs. exact E. }
      simpl in Ep, Hall. rewrite Ep in *. exists ps. split.
      * simpl. f_equal. apply Hall. by left.
      * intros e He. apply Hall. by right.
    + simpl. destruct (Js.isWs c) eqn:Ec.
      * simpl in E. rewrite (startsWithWs_trimEnd s E).
        exists extra. split; [|done].
        destruct (Js.startsWithWs s); [done|]. simpl. by rewrite IH.
      * exists extra. split; [|done]. rewrite IH.
        destruct (splitWs_first (Js.trimEnd s)) as (p & ps & -> & _).
        reflexivity.
Qed.

Lemma splitWs_trim s p :
  In p (Js.splitWs s) → p ≠ EmptyString → In p (Js.splitWs (Js.trim s)).
Proof.
  intros Hin Hp. unfold Js.trim.
  apply splitWs_trimStart in Hin; [|done].
  destruct (splitWs_trimEnd (Js.trimStart s)) as (extra & E & Hex).
  rewrite E in Hin. apply in_app_or in Hin as [?|He]; [done|].
  by apply Hex in He.
Qed.

(** ** Keyword queries *)

Lemma truthy_nonempty s : Js.truthy s = true ↔ s ≠ EmptyString.
Proof. destruct s; simpl; split; congruence. Qed.

Lemma Infix_app_r t a b : Infix t a → Infix t (a +:+ b).
Proof.
  intros (pre & post & ->). exists pre, (post +:+ b).
  by rewrite !append_assoc.
Qed.

(** The tokens are the non-empty pieces of the lower-cased query. *)
Lemma tokenize_In q t :
  In t (tokenize q) ↔
  t ≠ EmptyString ∧ In t (Js.splitWs (Js.toLowerCase q)).
Proof.
  unfold tokenize. rewrite filter_In, truthy_nonempty, in_map_iff. split.
  - intros [(p & <- & Hp) Ht]. split; [done|].
    destruct (splitWs_piece _ _ Hp) as [Hn _]. by rewrite (trim_noWs p Hn).
  - intros [Ht Hin]. split; [|done]. exists t. split; [|done].
    destruct (splitWs_piece _ _ Hin) as [Hn _]. by apply trim_noWs.
Qed.

Lemma tokenize_noWs q t : In t (tokenize q) → noWs t = true.
Proof. intros [_ Hin]%tokenize_In. by destruct (splitWs_piece _ _ Hin). Qed.

(** Each token of the query occurs in the normalised query text. *)
Lemma tokenize_in_normalizeText q t :
  In t (tokenize q) → Infix t (normalizeText (Js.trim q)).
Proof.
  intros [Ht Hin]%tokenize_In. unfold normalizeText.
  rewrite trim_idem, <- trim_lower.
  apply (splitWs_trim _ _ Hin) in Ht.
  rewrite <- splitWs_collapse in Ht.
  by destruct (splitWs_piece _ _ Ht).
Qed.

(** A run without white space that occurs in a normalised text occurs in
    the lower-cased text it was made from. *)
Lemma normalizeText_Infix t s :
  noWs t = true → Infix t (normalizeText s) → Infix t (Js.toLowerCase s).
Proof.
  unfold normalizeText. intros Ht Hin.
  destruct (splitWs_covers _ _ Ht Hin) as (p & Hp & Htp).
  rewrite splitWs_collapse in Hp.
  destruct (splitWs_piece _ _ Hp) as [_ Hps].
  rewrite <- trim_lower in Hps.
  eauto using Infix_trans, Infix_trim.
Qed.

Lemma re_subfamily_canon t : re_subfamily t = true → normalizeCipInput t ≠ EmptyString.
Proof.
  intros (a & b & c & d & -> & Ha & Hb & Hc & Hd)%re_subfamily_inv.
  assert (Hn : noWs (String a (String b (String "." (String c (String d EmptyString)))))
               = true).
  { simpl. by rewrite (digit_not_ws a Ha), (digit_not_ws b Hb),
      (digit_not_ws c Hc), (digit_not_ws d Hd). }
  unfold normalizeCipInput. rewrite (trim_noWs _ Hn). simpl.
  rewrite (digit_not_bracket a Ha), (digit_not_bracket b Hb),
    (digit_not_bracket c Hc), (digit_not_bracket d Hd). simpl.
  rewrite Ha, Hb, Hc, Hd. simpl.
  rewrite (digit_not_dot a Ha), (digit_not_dot b Hb),
    (digit_not_dot c Hc), (digit_not_dot d Hd). simpl. discriminate.
Qed.

(** A query that is not code-shaped takes neither code path. *)
Lemma queryHit_not_code q r :
  canon q = EmptyString →
  queryHit q r =
    Js.truthy (normalizeText (Js.trim q))
    && Js.includes (titleNorm r) (normalizeText (Js.trim q)).
Proof.
  intros Hc. unfold queryHit. rewrite isHit_or, Hc. simpl.
  rewrite orb_false_r.
  assert (matchCipPrefix r (Js.trim q) = false) as ->; [|done].
  unfold matchCipPrefix. rewrite trim_idem.
  destruct (Js.truthy (Js.trim q)); simpl; [|done].
  destruct (re_family (Js.trim q)) eqn:Ef.
  { apply normalizeCipInput_family in Ef. unfold canon in Hc.
    rewrite Hc in Ef. destruct (Js.trim q); discriminate Ef. }
  destruct (re_subfamily (Js.trim q)) eqn:Es; [|done].
  by apply re_subfamily_canon in Es.
Qed.

(** C1 (as the code has it).  For a query that is not code-shaped and a
    limit of at least the number of accepted records, [search] returns a
    loaded record exactly when the record passes the STEM filter and the
    whole normalised query (trimmed, lower case, runs of white space as one
    space) is non-empty and occurs in the record's normalised title.  Every
    token of the query then occurs in the lower-cased title and so in title
    plus definition: a record with only some of the tokens is excluded.  The
    converse does not hold: the tokens must be adjacent, in order, and in the
    title. *)
Theorem search_keyword json q stemOnly limit :
  canon q = EmptyString →
  Z.of_nat (length (matching (queryHit q) stemOnly (loadRecords json))) <= limit →
  ∀ r,
    (In r (search (loadRecords json) q stemOnly limit) ↔
       In r (loadRecords json)
       ∧ (stemOnly = true → eligible r = true)
       ∧ normalizeText (Js.trim q) ≠ EmptyString
       ∧ Js.includes (titleNorm r) (normalizeText (Js.trim q)) = true)
    ∧ (In r (search (loadRecords json) q stemOnly limit) →
       ∀ t, In t (tokenize q) → Js.includes (hay (entry r)) t = true).
Proof.
  intros Hc Hl r.
  assert (He : exactMatch (loadRecords json) (canon q) = None).
  { unfold exactMatch. by rewrite Hc. }
  assert (Hiff : In r (search (loadRecords json) q stemOnly limit) ↔
       In r (loadRecords json)
       ∧ (stemOnly = true → eligible r = true)
       ∧ normalizeText (Js.trim q) ≠ EmptyString
       ∧ Js.includes (titleNorm r) (normalizeText (Js.trim q)) = true).
  { rewrite (search_all _ q stemOnly limit He) by exact Hl.
    rewrite sortBy_In. unfold matching. rewrite filter_In, andb_true_iff.
    rewrite (queryHit_not_code q r Hc), andb_true_iff, truthy_nonempty.
    unfold scanned. destruct stemOnly, (eligible r); simpl; intuition congruence. }
  split; [exact Hiff|].
  intros (Hin & _ & _ & Hinc)%Hiff t Ht.
  apply includes_spec. apply includes_spec in Hinc.
  apply in_map_iff in Hin as (e & <- & _). simpl in *.
  unfold hay. rewrite toLowerCase_app. apply Infix_app_r.
  apply normalizeText_Infix; [by apply (tokenize_noWs q)|].
  eapply Infix_trans; [|exact Hinc]. by apply tokenize_in_normalizeText.
Qed.

Lemma search_keyword_witness :
  let r := deriveRecord compEng in
  (In r (search (loadRecords [computing; compEng; eeTech])
           " Computer   ENGINEERING " false 3) ↔
     In r (loadRecords [computing; compEng; eeTech])
     ∧ (false = true → eligible r = true)
     ∧ normalizeText (Js.trim " Computer   ENGINEERING ") ≠ EmptyString
     ∧ Js.includes (titleNorm r)
         (normalizeText (Js.trim " Computer   ENGINEERING ")) = true)
  ∧ (In r (search (loadRecords [computing; compEng; eeTech])
             " Computer   ENGINEERING " false 3) →
     ∀ t, In t (tokenize " Computer   ENGINEERING ") →
          Js.includes (hay (entry r)) t = true).
Proof.
  apply (search_keyword [computing; compEng; eeTech]
           " Computer   ENGINEERING " false 3).
  - reflexivity.
  - vm_compute. discriminate.
Defined.

(** C1 as worded fails for [search]: a record whose title and definition
    hold every token of the query is not returned when the tokens are not
    next to each other in the title, or stand in the definition. *)
Lemma search_keyword_not_token_and :
  search (loadRecords [computing; compEng; eeTech])
    "engineering computer" false 50 = []
  ∧ (∀ e, In e [compEng; eeTech] →
          ∀ t, In t (tokenize "engineering computer") →
               Js.includes (hay e) t = true).
Proof.
  split; [reflexivity|].
  intros e [<-|[<-|[]]] t [<-|[<-|[]]]; reflexivity.
Qed.

(** The page script does implement the conjunction of tokens: for a
    non-empty query that is not code-shaped, [searchIndex] keeps an entry
    exactly when every token occurs in its lower-cased title and
    definition. *)
Lemma searchIndex_keyword entries q stemOnly e :
  Js.trim q ≠ EmptyString →
  Js.truthy (canonicalCip (Js.trim q)) && re_canonical (canonicalCip (Js.trim q))
    = false →
  In e (searchIndex entries q stemOnly) ↔
    In e entries
    ∧ (stemOnly = true → stemEligible e = true)
    ∧ ∀ t, In t (tokenize (Js.trim q)) → Js.includes (hay e) t = true.
Proof.
  intros Hq Hcip. unfold searchIndex. rewrite Hcip.
  destruct (String.eqb_spec (Js.trim q) EmptyString); [done|].
  rewrite filter_In, forallb_forall.
  destruct stemOnly; [rewrite filter_In|]; intuition discriminate.
Qed.

Example searchIndex_keyword_and :
  map cip (searchIndex [computing; compEng; eeTech] "engineering computer" false)
    = ["14.0901"; "15.0303"].
Proof. reflexivity. Qed.

(** * Further properties of the query engine *)

(** ** The loop, for any limit *)

Section ScanMore.
Variables (hit : CipRecord → bool) (limit : Z).

(** With a positive limit the loop collects the first [limit] matches, in
    stored order. *)
Lemma scan_take stemOnly rs acc :
  Z.of_nat (length acc) < limit →
  scan hit stemOnly limit rs acc =
    acc ++ take (Z.to_nat limit - length acc) (matching hit stemOnly rs).
Proof.
  revert acc. induction rs as [|r rs IH]; intros acc Hacc.
  - simpl. by rewrite take_nil, app_nil_r.
  - assert (Hm : matching hit stemOnly (r :: rs) =
                 if scanned stemOnly r && hit r then r :: matching hit stemOnly rs
                 else matching hit stemOnly rs) by reflexivity.
    rewrite Hm. clear Hm.
    destruct (scanned stemOnly r) eqn:Es.
    + rewrite scan_step by done. simpl. destruct (hit r); simpl.
      * rewrite length_app. simpl.
        destruct (Z.to_nat limit - length acc)%nat as [|n] eqn:En; [lia|].
        simpl. destruct (limit <=? _) eqn:E.
        -- apply Z.leb_le in E. assert (n = 0%nat) as -> by lia.
           by rewrite take_0.
        -- apply Z.leb_gt in E. rewrite IH by (rewrite length_app; simpl; lia).
           rewrite length_app, <- app_assoc. simpl.
           do 3 f_equal. lia.
      * destruct (limit <=? _) eqn:E; [apply Z.leb_le in E; lia|].
        by apply IH.
    + rewrite scan_skip by done. by apply IH.
Qed.

(** The loop keeps the stored order and never repeats a record it did not
    get twice. *)
Lemma scan_sublist stemOnly rs acc :
  ∃ l, scan hit stemOnly limit rs acc = acc ++ l ∧ sublist l rs.
Proof.
  revert acc. induction rs as [|r rs IH]; intros acc; simpl.
  - exists []. by rewrite app_nil_r.
  - destruct (stemOnly && negb (eligible r)).
    + destruct (IH acc) as (l & -> & Hl). exists l. split; [done|].
      by apply sublist_cons.
    + destruct (hit r).
      * destruct (limit <=? _).
        -- exists [r]. split; [done|]. apply sublist_skip, sublist_nil_l.
        -- destruct (IH (acc ++ [r])) as (l & -> & Hl). exists (r :: l).
           split; [by rewrite <- app_assoc|]. by apply sublist_skip.
      * destruct (limit <=? _).
        -- exists []. split; [by rewrite app_nil_r|]. apply sublist_nil_l.
        -- destruct (IH acc) as (l & -> & Hl). exists l. split; [done|].
           by apply sublist_cons.
Qed.

(** Skipping the non-eligible records in the loop is scanning the eligible
    records without the filter. *)
Lemma scan_filter_eligible rs acc :
  scan hit true limit rs acc =
    scan hit false limit (List.filter eligible rs) acc.
Proof.
  revert acc. induction rs as [|r rs IH]; intros acc; simpl; [done|].
  destruct (eligible r); simpl; [|by apply IH].
  destruct (limit <=? _); [done|]. apply IH.
Qed.
End ScanMore.

Lemma exactMatch_None records c :
  exactMatch records c = None ↔
  c = EmptyString ∨ ∀ r, In r records → cipNorm r ≠ c.
Proof.
  unfold exactMatch. destruct c as [|x c]; simpl.
  - split; auto.
  - rewrite byCip_lookup_None. split; [auto|]. by intros [|].
Qed.

(** X1.  Whatever the collection, the query, the STEM flag and the limit,
    the records [search] returns are in ascending order of code. *)
Theorem search_sorted records q stemOnly limit :
  StronglySorted codeLe (search records q stemOnly limit).
Proof.
  destruct (exactMatch records (canon q)) as [r|] eqn:He.
  - rewrite (search_exact _ _ _ _ _ He).
    destruct (negb stemOnly || eligible r); repeat constructor.
  - rewrite (search_scan _ _ _ _ He). apply sortBy_cmpCip_sorted.
Qed.

(** X2.  [search] returns only records of the collection; under the STEM
    filter each of them is eligible; and each of them either carries the
    code the query canonicalises to or is accepted by one of the three tests
    of the loop. *)
Theorem search_sound records q stemOnly limit r :
  In r (search records q stemOnly limit) →
  In r records
  ∧ (stemOnly = true → eligible r = true)
  ∧ (cipNorm r = canon q ∨ queryHit q r = true).
Proof.
  destruct (exactMatch records (canon q)) as [x|] eqn:He.
  - rewrite (search_exact _ _ _ _ _ He).
    unfold exactMatch in He. destruct (Js.truthy (canon q)); [|done].
    apply byCip_lookup_Some in He as [Hin Hc].
    destruct stemOnly, (eligible x) eqn:Ex; simpl; try done;
      intros [<-|[]]; repeat split; auto; discriminate.
  - intros (Hin & Hs & Hh)%(search_In _ _ _ _ _ He). split; [done|].
    split; [|by right]. intros ->. unfold scanned in Hs. simpl in Hs.
    by destruct (eligible r).
Qed.

Lemma search_sound_witness :
  let records := loadRecords [eeTech; compEng; computing] in
  let r := deriveRecord compEng in
  In r records
  ∧ (true = true → eligible r = true)
  ∧ (cipNorm r = canon "engineering" ∨ queryHit "engineering" r = true).
Proof.
  apply (search_sound _ "engineering" true 50). left. reflexivity.
Defined.

(** X3.  For every limit, positive or not, [search] returns at most
    [max 1 limit] records: a limit of zero or less still lets one record
    through. *)
Theorem search_length_bound records q stemOnly limit :
  Z.of_nat (length (search records q stemOnly limit)) <= Z.max 1 limit.
Proof.
  destruct (exactMatch records (canon q)) as [r|] eqn:He.
  - rewrite (search_exact _ _ _ _ _ He).
    destruct (negb stemOnly || eligible r); simpl; lia.
  - rewrite (search_scan _ _ _ _ He), sortBy_length.
    destruct (Z.lt_ge_cases 0 limit) as [Hpos|Hneg].
    + pose proof (scan_length (isHit (Js.trim q) (normalizeText (Js.trim q))
                    (canon q)) stemOnly limit records []) as H.
      simpl in H. lia.
    + rewrite scan_nonpositive by done.
      destruct (List.filter _ records) as [|x ?]; simpl; [lia|].
      destruct (isHit _ _ _ x); simpl; lia.
Qed.

(** X4.  For a query that is not answered by the exact branch and a
    positive limit, [search] returns the first [limit] accepted records in
    stored order, sorted by code: the limit cuts before the sort. *)
Theorem search_take records q stemOnly limit :
  exactMatch records (canon q) = None →
  0 < limit →
  search records q stemOnly limit =
    sortBy cmpCip
      (take (Z.to_nat limit) (matching (queryHit q) stemOnly records)).
Proof.
  intros He Hpos. rewrite (search_scan _ _ _ _ He).
  fold (queryHit q). rewrite scan_take by (simpl; lia).
  simpl. by rewrite Nat.sub_0_r.
Qed.

Lemma search_take_witness :
  let records := loadRecords [eeTech; compEng; computing] in
  search records "engineering" false 1 =
    sortBy cmpCip (take (Z.to_nat 1) (matching (queryHit "engineering") false records)).
Proof. apply search_take; [reflexivity|lia]. Defined.

(** X5.  Raising a positive limit never loses a record: what [search]
    returns for [limit] it also returns for every larger limit. *)
Theorem search_limit_mono records q stemOnly limit limit' r :
  0 < limit → limit <= limit' →
  In r (search records q stemOnly limit) →
  In r (search records q stemOnly limit').
Proof.
  intros Hpos Hle.
  destruct (exactMatch records (canon q)) as [x|] eqn:He.
  - by rewrite !(search_exact _ _ _ _ _ He).
  - rewrite (search_scan _ _ _ _ He), (search_scan _ _ _ _ He), !sortBy_In.
    rewrite !scan_take by (simpl; lia). simpl. rewrite !Nat.sub_0_r.
    set (m := matching _ _ _). rewrite <- !list_elem_of_In, !elem_of_take.
    intros (i & Hi & Hlt). exists i. split; [done|lia].
Qed.

Lemma search_limit_mono_witness :
  In (deriveRecord eeTech)
    (search (loadRecords [eeTech; compEng; computing]) "engineering" false 2).
Proof.
  apply (search_limit_mono _ "engineering" false 1 2); [lia|lia|].
  left. reflexivity.
Defined.

(** X6.  If no record occurs twice in the collection, no record occurs
    twice in the result of [search]. *)
Theorem search_NoDup records q stemOnly limit :
  NoDup records → NoDup (search records q stemOnly limit).
Proof.
  intros Hnd. destruct (exactMatch records (canon q)) as [x|] eqn:He.
  - rewrite (search_exact _ _ _ _ _ He).
    destruct (negb stemOnly || eligible x); [|constructor].
    apply NoDup_singleton.
  - rewrite (search_scan _ _ _ _ He).
    rewrite (sortBy_perm cmpCip).
    destruct (scan_sublist (isHit (Js.trim q) (normalizeText (Js.trim q)) (canon q))
                limit stemOnly records []) as (l & -> & Hl).
    simpl. by eapply sublist_NoDup.
Qed.

Lemma search_NoDup_witness :
  NoDup (search (loadRecords [eeTech; compEng; computing]) "engineering" false 50).
Proof.
  apply search_NoDup.
  repeat (apply NoDup_cons_2;
    [rewrite list_elem_of_In; simpl; intros H;
     repeat (destruct H as [H|H]; try discriminate H); done|]).
  apply NoDup_nil_2.
Defined.

(** X7.  When no record carries the code the query canonicalises to,
    searching with the STEM filter is searching the eligible records of the
    collection without it, for every limit. *)
Theorem search_stem_is_filter records q limit :
  exactMatch records (canon q) = None →
  search records q true limit =
    search (List.filter eligible records) q false limit.
Proof.
  intros He.
  assert (He' : exactMatch (List.filter eligible records) (canon q) = None).
  { apply exactMatch_None. apply exactMatch_None in He as [?|H]; [by left|].
    right. intros r [Hr _]%filter_In. by apply H. }
  rewrite (search_scan _ _ _ _ He), (search_scan _ _ _ _ He').
  by rewrite scan_filter_eligible.
Qed.

Lemma search_stem_is_filter_witness :
  let records := loadRecords [eeTech; compEng; computing] in
  search records "engineering" true 1 =
    search (List.filter eligible records) "engineering" false 1.
Proof. apply search_stem_is_filter. reflexivity. Defined.

(** ** The exact-match map with repeated codes *)

Lemma byCip_app rs l :
  byCip (rs ++ l) = foldl (λ m r, <[cipNorm r := r]> m) (byCip rs) l.
Proof. unfold byCip. by rewrite foldl_app. Qed.

Lemma foldl_insert_other (m : gmap string CipRecord) l k :
  (∀ x, In x l → cipNorm x ≠ k) →
  foldl (λ m r, <[cipNorm r := r]> m) m l !! k = m !! k.
Proof.
  revert m. induction l as [|x l IH]; intros m Hl; simpl; [done|].
  rewrite IH by (intros y Hy; apply Hl; by right).
  apply lookup_insert_ne, Hl. by left.
Qed.

(** X8.  When several records carry the code the query canonicalises to,
    the exact branch returns the last of them in stored order (alone, and
    only if it passes the STEM filter): the map keeps the last record set
    under a key. *)
Theorem search_exact_last l1 r l2 q stemOnly limit :
  (∀ x, In x l2 → cipNorm x ≠ cipNorm r) →
  normalizeCipInput q = cipNorm r →
  normalizeCipInput q ≠ EmptyString →
  search (l1 ++ r :: l2) q stemOnly limit =
    if negb stemOnly || eligible r then [r] else [].
Proof.
  intros Hlast Hcode Hne. apply search_exact.
  unfold exactMatch, canon. rewrite normalizeCipInput_trim.
  destruct (normalizeCipInput q) eqn:E; [done|]. simpl. rewrite Hcode.
  change (l1 ++ r :: l2) with (l1 ++ [r] ++ l2).
  rewrite app_assoc, byCip_app, foldl_insert_other by done.
  rewrite byCip_snoc. apply lookup_insert_eq.
Qed.

Lemma search_exact_last_witness :
  search ([sample "14.0901" "Computer Engineering" true]
            ++ sample "14.0901" "Computer Engineering, General" false
            :: [sample "11.0701" "Computer Science" true]) "14.0901" false 50 =
    [sample "14.0901" "Computer Engineering, General" false].
Proof.
  apply (search_exact_last _ (sample "14.0901" "Computer Engineering, General" false)
           _ "14.0901" false 50).
  - intros x [<-|[]]. discriminate.
  - reflexivity.
  - discriminate.
Defined.

(** X9.  The map built from the collection has a key exactly for the codes
    that occur in the collection, and what it holds under a key is a record
    of the collection with that code. *)
Theorem byCip_has records k :
  (is_Some (byCip records !! k) ↔ ∃ r, In r records ∧ cipNorm r = k)
  ∧ (∀ r, byCip records !! k = Some r → In r records ∧ cipNorm r = k).
Proof.
  split; [|apply byCip_lookup_Some].
  split.
  - intros [r Hr]. exists r. by apply byCip_lookup_Some.
  - intros (r & Hin & Hk). destruct (byCip records !! k) eqn:E; [done|].
    exfalso. by apply (proj1 (byCip_lookup_None records k) E r).
Qed.

Lemma byCip_has_witness :
  is_Some (byCip (loadRecords [eeTech; compEng; computing]) !! "14.0901").
Proof.
  apply (proj1 (byCip_has _ "14.0901")).
  exists (deriveRecord compEng). split; [right; by left|reflexivity].
Defined.

(** ** Upper and lower case in the query *)

Lemma lowerChar_digit c : Js.isDigit (Js.lowerChar c) = Js.isDigit c.
Proof. by_cases_on_char c. Qed.

Lemma lowerChar_bracket c : Js.isBracket (Js.lowerChar c) = Js.isBracket c.
Proof. by_cases_on_char c. Qed.

Lemma lowerChar_dot c :
  Ascii.eqb (Js.lowerChar c) "."%char = Ascii.eqb c "."%char.
Proof. by_cases_on_char c. Qed.

Lemma lowerChar_idem c : Js.lowerChar (Js.lowerChar c) = Js.lowerChar c.
Proof. by_cases_on_char c. Qed.

Lemma lowerChar_code c :
  Js.isDigit c || Ascii.eqb c "."%char = true → Js.lowerChar c = c.
Proof. by_cases_on_char c. Qed.

Lemma toLowerCase_idem s :
  Js.toLowerCase (Js.toLowerCase s) = Js.toLowerCase s.
Proof.
  induction s as [|c s IH]; simpl; [done|]. by rewrite lowerChar_idem, IH.
Qed.

Lemma toLowerCase_code s : codeChars s = true → Js.toLowerCase s = s.
Proof.
  induction s as [|c s IH]; simpl; [done|].
  intros [Hc Hs]%andb_true_iff. by rewrite (lowerChar_code c Hc), IH.
Qed.

Lemma codeChars_lower s : codeChars (Js.toLowerCase s) = codeChars s.
Proof.
  induction s as [|c s IH]; simpl; [done|].
  by rewrite lowerChar_digit, lowerChar_dot, IH.
Qed.

Lemma allDigits_codeChars s : Js.allDigits s = true → codeChars s = true.
Proof.
  induction s as [|c s IH]; simpl; [done|].
  intros [-> Hs]%andb_true_iff. simpl. auto.
Qed.

Lemma re_family_codeChars s : re_family s = true → codeChars s = true.
Proof.
  intros (a & b & -> & Ha & Hb)%re_family_inv. simpl. by rewrite Ha, Hb.
Qed.

Lemma re_partial_codeChars s l r :
  re_partial s = Some (l, r) → codeChars s = true.
Proof.
  intros (a & b & -> & _ & Ha & Hb & Hr & _)%re_partial_inv. simpl.
  rewrite Ha, Hb. simpl. by apply allDigits_codeChars.
Qed.

Lemma re_subfamily_codeChars s : re_subfamily s = true → codeChars s = true.
Proof.
  intros (a & b & c & d & -> & Ha & Hb & Hc & Hd)%re_subfamily_inv. simpl.
  by rewrite Ha, Hb, Hc, Hd.
Qed.

Lemma re_canonical_codeChars s : re_canonical s = true → codeChars s = true.
Proof.
  intros (a & b & c & d & e & f & -> & Ha & Hb & Hc & Hd & He & Hf)%re_canonical_inv.
  simpl. by rewrite Ha, Hb, Hc, Hd, He, Hf.
Qed.

(** A string with another code unit than a digit or a dot matches none of
    the four expressions. *)
Lemma not_codeChars s :
  codeChars s = false →
  re_family s = false ∧ re_subfamily s = false ∧ re_canonical s = false
  ∧ re_partial s = None.
Proof.
  intros Hs. repeat split.
  - destruct (re_family s) eqn:E; [|done].
    apply re_family_codeChars in E. congruence.
  - destruct (re_subfamily s) eqn:E; [|done].
    apply re_subfamily_codeChars in E. congruence.
  - destruct (re_canonical s) eqn:E; [|done].
    apply re_canonical_codeChars in E. congruence.
  - destruct (re_partial s) as [[l r]|] eqn:E; [|done].
    apply re_partial_codeChars in E. congruence.
Qed.

Lemma removeBrackets_lower s :
  Js.removeBrackets (Js.toLowerCase s) = Js.toLowerCase (Js.removeBrackets s).
Proof.
  induction s as [|c s IH]; simpl; [done|].
  rewrite lowerChar_bracket. destruct (Js.isBracket c); simpl; by rewrite IH.
Qed.

Lemma truthy_lower s : Js.truthy (Js.toLowerCase s) = Js.truthy s.
Proof. by destruct s. Qed.

Lemma normalizeCipInput_lower s :
  normalizeCipInput (Js.toLowerCase s) = normalizeCipInput s.
Proof.
  unfold normalizeCipInput.
  rewrite trim_lower, truthy_lower, removeBrackets_lower.
  destruct (Js.truthy (Js.trim s)); simpl; [|done].
  generalize (Js.removeBrackets (Js.trim s)). intros t.
  destruct (codeChars t) eqn:Ht.
  - by rewrite (toLowerCase_code t Ht).
  - pose proof Ht as Ht'. rewrite <- codeChars_lower in Ht'.
    destruct (not_codeChars _ Ht) as (-> & -> & -> & ->).
    by destruct (not_codeChars _ Ht') as (-> & -> & -> & ->).
Qed.

Lemma matchCipPrefix_lower r s :
  matchCipPrefix r (Js.toLowerCase s) = matchCipPrefix r s.
Proof.
  unfold matchCipPrefix. rewrite trim_lower, truthy_lower.
  destruct (Js.truthy (Js.trim s)); simpl; [|done].
  generalize (Js.trim s). intros t.
  destruct (codeChars t) eqn:Ht.
  - by rewrite (toLowerCase_code t Ht).
  - pose proof Ht as Ht'. rewrite <- codeChars_lower in Ht'.
    destruct (not_codeChars _ Ht) as (-> & -> & _).
    by destruct (not_codeChars _ Ht') as (-> & -> & _).
Qed.

Lemma scan_ext hit hit' stemOnly limit rs acc :
  (∀ r, hit r = hit' r) →
  scan hit stemOnly limit rs acc = scan hit' stemOnly limit rs acc.
Proof.
  intros Hext. revert acc. induction rs as [|r rs IH]; intros acc; simpl; [done|].
  rewrite Hext. destruct (stemOnly && negb (eligible r)); [apply IH|].
  destruct (limit <=? _); [done|apply IH].
Qed.

Lemma normalizeText_lower s :
  normalizeText (Js.toLowerCase s) = normalizeText s.
Proof. unfold normalizeText. by rewrite trim_lower, toLowerCase_idem. Qed.

(** X10.  [search] does not depend on the case of the query: the query in
    lower case returns the same records, for code queries and keyword
    queries alike. *)
Theorem search_case_insensitive records q stemOnly limit :
  search records (Js.toLowerCase q) stemOnly limit =
    search records q stemOnly limit.
Proof.
  unfold search.
  rewrite trim_lower, normalizeText_lower, normalizeCipInput_lower.
  destruct (exactMatch records _); [done|].
  f_equal. apply scan_ext. intros r.
  unfold isHit. by rewrite matchCipPrefix_lower.
Qed.

(** ** Normalised text and tokens *)

Lemma allWs_collapse s : Js.allWs (Js.collapseWs s) = Js.allWs s.
Proof.
  induction s as [|c s IH]; simpl; [done|].
  destruct (Js.isWs c) eqn:Ec; simpl; [|by rewrite Ec].
  destruct (Js.startsWithWs s) eqn:Es; simpl; [by rewrite IH|].
  by rewrite IH.
Qed.

Lemma trimEnd_allWs s : Js.allWs s = true → Js.trimEnd s = EmptyString.
Proof. destruct s as [|c s]; simpl; [done|]. by intros ->. Qed.

Lemma trimEnd_collapse s :
  Js.trimEnd (Js.collapseWs s) = Js.collapseWs (Js.trimEnd s).
Proof.
  induction s as [|c s IH]; [done|].
  cbn [Js.trimEnd]. destruct (Js.isWs c && Js.allWs s) eqn:E.
  - apply trimEnd_allWs. rewrite allWs_collapse. exact E.
  - cbn [Js.collapseWs]. destruct (Js.isWs c) eqn:Ec.
    + simpl in E. rewrite (startsWithWs_trimEnd s E).
      destruct (Js.startsWithWs s); [exact IH|].
      cbn [Js.trimEnd]. rewrite allWs_collapse, E, andb_false_r.
      by rewrite IH.
    + cbn [Js.trimEnd]. rewrite Ec. simpl. by rewrite IH.
Qed.

Lemma trimStart_collapse s :
  Js.trimStart (Js.collapseWs s) = Js.collapseWs (Js.trimStart s).
Proof.
  induction s as [|c s IH]; [done|]. simpl.
  destruct (Js.isWs c) eqn:Ec.
  - destruct (Js.startsWithWs s); [exact IH|]. simpl. exact IH.
  - simpl. by rewrite Ec.
Qed.

Lemma trim_collapse s : Js.trim (Js.collapseWs s) = Js.collapseWs (Js.trim s).
Proof. unfold Js.trim. by rewrite trimStart_collapse, trimEnd_collapse. Qed.

Lemma startsWithWs_lower s :
  Js.startsWithWs (Js.toLowerCase s) = Js.startsWithWs s.
Proof. destruct s; simpl; [done|apply lowerChar_ws]. Qed.

Lemma collapse_lower s :
  Js.collapseWs (Js.toLowerCase s) = Js.toLowerCase (Js.collapseWs s).
Proof.
  induction s as [|c s IH]; simpl; [done|].
  rewrite lowerChar_ws, startsWithWs_lower.
  destruct (Js.isWs c), (Js.startsWithWs s); simpl; by rewrite IH.
Qed.

Lemma collapse_idem s : Js.collapseWs (Js.collapseWs s) = Js.collapseWs s.
Proof.
  induction s as [|c s IH]; simpl; [done|].
  destruct (Js.isWs c) eqn:Ec.
  - destruct (Js.startsWithWs s) eqn:Es; [exact IH|].
    simpl. by rewrite startsWithWs_collapse, Es, IH.
  - simpl. by rewrite Ec, IH.
Qed.

(** X11.  [normalizeText] is idempotent: a normalised text is trimmed, in
    lower case and has single spaces only, so normalising it again changes
    nothing. *)
Theorem normalizeText_idem s :
  normalizeText (normalizeText s) = normalizeText s
  ∧ Js.trim (normalizeText s) = normalizeText s
  ∧ Js.toLowerCase (normalizeText s) = normalizeText s
  ∧ Js.collapseWs (normalizeText s) = normalizeText s.
Proof.
  assert (Ht : Js.trim (normalizeText s) = normalizeText s).
  { unfold normalizeText. by rewrite trim_collapse, trim_lower, trim_idem. }
  assert (Hl : Js.toLowerCase (normalizeText s) = normalizeText s).
  { unfold normalizeText. by rewrite <- collapse_lower, toLowerCase_idem. }
  assert (Hc : Js.collapseWs (normalizeText s) = normalizeText s).
  { unfold normalizeText. apply collapse_idem. }
  split; [|done]. unfold normalizeText at 1. by rewrite Ht, Hl, Hc.
Qed.

Lemma filter_truthy_trimStart s :
  List.filter Js.truthy (Js.splitWs (Js.trimStart s))
  = List.filter Js.truthy (Js.splitWs s).
Proof.
  induction s as [|c s IH]; [done|]. simpl.
  destruct (Js.isWs c) eqn:Ec.
  - destruct (Js.startsWithWs s); [exact IH|]. simpl. exact IH.
  - simpl. by rewrite Ec.
Qed.

Lemma filter_truthy_trimEnd s :
  List.filter Js.truthy (Js.splitWs (Js.trimEnd s))
  = List.filter Js.truthy (Js.splitWs s).
Proof.
  destruct (splitWs_trimEnd s) as (extra & -> & Hex).
  rewrite List.filter_app.
  assert (List.filter Js.truthy extra = []) as ->; [|by rewrite app_nil_r].
  induction extra as [|e extra IH]; [done|]. simpl.
  rewrite (Hex e) by (by left). simpl. apply IH. intros x Hx. apply Hex. by right.
Qed.

Lemma map_trim_splitWs s : map Js.trim (Js.splitWs s) = Js.splitWs s.
Proof.
  rewrite <- (map_id (Js.splitWs s)) at 2. apply map_ext_in.
  intros p Hp. apply trim_noWs. by destruct (splitWs_piece _ _ Hp).
Qed.

(** X12.  The tokens that the page script's [tokenize] makes of a query
    are the words of the text that [normalizeText] makes of it: splitting
    the normalised text at white space and dropping empty pieces gives the
    same list. *)
Theorem tokenize_normalizeText q :
  tokenize q = List.filter Js.truthy (Js.splitWs (normalizeText q)).
Proof.
  unfold tokenize, normalizeText.
  rewrite map_trim_splitWs, splitWs_collapse, <- trim_lower.
  unfold Js.trim. by rewrite filter_truthy_trimEnd, filter_truthy_trimStart.
Qed.

Lemma lower_fix_prefix t post :
  Js.toLowerCase (t +:+ post) = t +:+ post → Js.toLowerCase t = t.
Proof.
  induction t as [|c t IH]; simpl; [done|].
  intros [= Hc Ht]. by rewrite Hc, IH.
Qed.

Lemma lower_fix_Infix t s :
  Infix t s → Js.toLowerCase s = s → Js.toLowerCase t = t.
Proof.
  intros (pre & post & ->). induction pre as [|c pre IH]; simpl.
  - apply lower_fix_prefix.
  - intros [= _ H]. by apply IH.
Qed.

(** X13.  Every token of [tokenize] is non-empty, holds no white space, is
    in lower case, and occurs in the lower-cased query. *)
Theorem tokenize_tokens q t :
  In t (tokenize q) →
  t ≠ EmptyString
  ∧ noWs t = true
  ∧ Js.toLowerCase t = t
  ∧ Js.includes (Js.toLowerCase q) t = true.
Proof.
  intros [Hne Hin]%tokenize_In.
  destruct (splitWs_piece _ _ Hin) as [Hn Hinf].
  repeat split; try done.
  - eapply lower_fix_Infix; [exact Hinf|apply toLowerCase_idem].
  - by apply includes_spec.
Qed.

Lemma tokenize_tokens_witness :
  "engineering" ≠ EmptyString
  ∧ noWs "engineering" = true
  ∧ Js.toLowerCase "engineering" = "engineering"
  ∧ Js.includes (Js.toLowerCase " Computer  ENGINEERING ") "engineering" = true.
Proof.
  apply (tokenize_tokens " Computer  ENGINEERING " "engineering").
  right. left. reflexivity.
Defined.

(** ** More on the two canonicalisers *)

Lemma digit_not_open c : Js.isDigit c = true → isOpen c = false.
Proof. by_cases_on_char c. Qed.

Lemma digit_not_close c : Js.isDigit c = true → isClose c = false.
Proof. by_cases_on_char c. Qed.

(** The facts about a digit that the string functions ask for. *)
Ltac digit_facts :=
  repeat match goal with
  | H : Js.isDigit ?c = true |- _ =>
      pose proof (digit_not_ws c H); pose proof (digit_not_bracket c H);
      pose proof (digit_not_dot c H); pose proof (digit_not_open c H);
      pose proof (digit_not_close c H); revert H
  end; intros.

Ltac by_digit_facts :=
  digit_facts;
  repeat (progress (simpl;
    repeat match goal with
    | H : _ = true |- _ => rewrite H
    | H : _ = false |- _ => rewrite H
    end));
  try reflexivity.

Lemma normalizeCipInput_canonical c : Canonical c → normalizeCipInput c = c.
Proof.
  intros (a & b & d1 & d2 & d3 & d4 & -> & Ha & Hb & H1 & H2 & H3 & H4).
  unfold normalizeCipInput, Js.trim. by_digit_facts.
Qed.

Lemma normalizeCipInput_result s :
  normalizeCipInput s ≠ EmptyString → Canonical (normalizeCipInput s).
Proof.
  unfold normalizeCipInput.
  destruct (Js.truthy (Js.trim s)); simpl; [|done].
  generalize (Js.removeBrackets (Js.trim s)). clear s. intros s.
  destruct (re_family s) eqn:Ef.
  { intros _. apply re_family_inv in Ef as (a & b & -> & Ha & Hb).
    exists a, b, "0"%char, "0"%char, "0"%char, "0"%char. auto 10. }
  destruct (re_subfamily s) eqn:Es.
  { intros _.
    apply re_subfamily_inv in Es as (a & b & c & d & -> & Ha & Hb & Hc & Hd).
    exists a, b, c, d, "0"%char, "0"%char.
    split; [by_digit_facts|auto 10]. }
  destruct (re_canonical s) eqn:Ec.
  { intros _. by apply re_canonical_inv. }
  destruct (re_partial s) as [[l r]|] eqn:Ep; [|done]. intros _.
  apply re_partial_inv in Ep as (a & b & -> & -> & Ha & Hb & Hr & Hlen).
  destruct (padStart_digits r Hr Hlen) as (z & -> & _ & Hl & Hd).
  destruct (digits_of_length 4 _ Hd Hl) as (c & d & e & f & -> & ? & ? & ? & ?).
  exists a, b, c, d, e, f. simpl. auto 10.
Qed.

(** X14.  [normalizeCipInput] is idempotent, and a canonical code [NN.NNNN]
    comes back unchanged. *)
Theorem normalizeCipInput_idem s :
  normalizeCipInput (normalizeCipInput s) = normalizeCipInput s
  ∧ (Canonical s → normalizeCipInput s = s).
Proof.
  split; [|apply normalizeCipInput_canonical].
  destruct (normalizeCipInput s) eqn:E; [done|]. rewrite <- E.
  apply normalizeCipInput_canonical, normalizeCipInput_result.
  rewrite E. discriminate.
Qed.

Lemma normalizeCipInput_idem_witness : normalizeCipInput "14.0903" = "14.0903".
Proof.
  apply (proj2 (normalizeCipInput_idem "14.0903")).
  exists "1"%char, "4"%char, "0"%char, "9"%char, "0"%char, "3"%char.
  repeat split.
Defined.

Lemma truthy_removeBrackets s :
  Js.truthy (Js.removeBrackets s) = true → Js.truthy s = true.
Proof. by destruct s. Qed.

Lemma splitDot_subfamily a b c d :
  Js.isDigit a = true → Js.isDigit b = true →
  Js.isDigit c = true → Js.isDigit d = true →
  Js.splitDot (String a (String b (String "." (String c (String d EmptyString)))))
  = [String a (String b EmptyString); String c (String d EmptyString)].
Proof. intros. by_digit_facts. Qed.

(** X15.  Brackets and parentheses anywhere in the trimmed input are
    ignored, and on what is left the canonicaliser pads on the right for the
    two short shapes: [NN] gets [.0000] and [NN.NN] gets [00]. *)
Theorem normalizeCipInput_rollup s :
  (re_family (Js.removeBrackets (Js.trim s)) = true →
   normalizeCipInput s = Js.removeBrackets (Js.trim s) +:+ ".0000")
  ∧ (re_subfamily (Js.removeBrackets (Js.trim s)) = true →
     normalizeCipInput s = Js.removeBrackets (Js.trim s) +:+ "00").
Proof.
  unfold normalizeCipInput. split; intros H.
  - assert (Ht : Js.truthy (Js.trim s) = true).
    { apply truthy_removeBrackets.
      by destruct (re_family_inv _ H) as (a & b & -> & _). }
    by rewrite Ht, H.
  - assert (Ht : Js.truthy (Js.trim s) = true).
    { apply truthy_removeBrackets.
      by destruct (re_subfamily_inv _ H) as (a & b & c & d & -> & _). }
    rewrite Ht, H. simpl.
    destruct (re_subfamily_inv _ H) as (a & b & c & d & E & Ha & Hb & Hc & Hd).
    rewrite E. rewrite splitDot_subfamily by done. reflexivity.
Qed.

Lemma normalizeCipInput_rollup_witness :
  normalizeCipInput " [14].(09) " = Js.removeBrackets (Js.trim " [14].(09) ") +:+ "00".
Proof. apply (proj2 (normalizeCipInput_rollup " [14].(09) ")). reflexivity. Defined.

(** X16.  Whatever the input, [canonicalCip] returns a canonical code
    [NN.NNNN] or the trimmed input without its outer brackets, unchanged:
    unlike [normalizeCipInput] it has no empty answer for text that is not
    code-shaped. *)
Theorem canonicalCip_shape raw :
  Canonical (canonicalCip raw) ∨ canonicalCip raw = stripEnds (Js.trim raw).
Proof.
  unfold canonicalCip. generalize (stripEnds (Js.trim raw)). intros s.
  destruct (Js.truthy s) eqn:Et; simpl; [|right; by destruct s].
  destruct (Js.includes s "."); simpl.
  - set (left2 := Js.trim _). set (right' := Js.trim _).
    destruct (re_family left2) eqn:Ef; simpl; [|by right].
    apply re_family_inv in Ef as (a & b & -> & Ha & Hb).
    unfold re_digitsN, re_digits1to4.
    destruct (Js.allDigits right') eqn:Ed; simpl; [|by right].
    destruct (String.length right' =? 2)%nat eqn:E2.
    { left. apply Nat.eqb_eq in E2.
      destruct (digits_of_length 2 _ Ed E2) as (c & d & -> & ? & ?).
      exists a, b, c, d, "0"%char, "0"%char. auto 10. }
    destruct (String.length right' =? 4)%nat eqn:E4.
    { left. apply Nat.eqb_eq in E4.
      destruct (digits_of_length 4 _ Ed E4) as (c & d & e & f & -> & ? & ? & ? & ?).
      exists a, b, c, d, e, f. auto 10. }
    destruct (_ && (String.length right' <=? 4)%nat) eqn:E14; [|by right].
    left. apply andb_true_iff in E14 as [H0 H4%Nat.leb_le].
    assert (H1 : (1 ≤ String.length right')%nat)
      by (destruct (String.length right'); [discriminate|lia]).
    destruct (padStart_digits right' Ed (conj H1 H4)) as (z & -> & _ & Hl & Hd).
    destruct (digits_of_length 4 _ Hd Hl) as (c & d & e & f & -> & ? & ? & ? & ?).
    exists a, b, c, d, e, f. auto 10.
  - destruct (re_family s) eqn:Ef; [|by right].
    left. apply re_family_inv in Ef as (a & b & -> & Ha & Hb).
    exists a, b, "0"%char, "0"%char, "0"%char, "0"%char. auto 10.
Qed.

Lemma splitDot_digits r : Js.allDigits r = true → Js.splitDot r = [r].
Proof.
  induction r as [|c r IH]; simpl; [done|].
  intros [Hc Hr]%andb_true_iff. by rewrite (digit_not_dot c Hc), IH.
Qed.

Lemma stripClose_codeChars s : codeChars s = true → stripClose s = s.
Proof.
  induction s as [|c s IH]; simpl; [done|].
  intros [Hc Hs]%andb_true_iff.
  assert (isClose c = false) as -> by (revert Hc; by_cases_on_char c).
  simpl. by rewrite IH.
Qed.

Lemma includes_dot_digits r :
  Js.allDigits r = true → Js.includes r "." = false.
Proof.
  induction r as [|c r IH]; simpl; [done|].
  intros [Hc Hr]%andb_true_iff. by rewrite (digit_not_dot c Hc), IH.
Qed.

(** X17.  On plain code input - two digits, alone or followed by a dot and
    one to four digits - the page script's [canonicalCip] and
    [normalizeCipInput] of [loadIndex.js] return the same canonical code. *)
Theorem canonicalisers_agree t :
  re_family t = true ∨ is_Some (re_partial t) →
  canonicalCip t = normalizeCipInput t ∧ Canonical (canonicalCip t).
Proof.
  intros Ht.
  assert (Hsame : canonicalCip t = normalizeCipInput t).
  { destruct Ht as [Hf|[[l r] Hp]].
    - rewrite (normalizeCipInput_family t Hf).
      apply re_family_inv in Hf as (a & b & -> & Ha & Hb).
      unfold canonicalCip, stripEnds, Js.trim. by_digit_facts.
    - destruct (re_partial_inv t l r Hp) as (a & b & -> & -> & Ha & Hb & Hr & Hlen).
      assert (Hn : noWs (String a (String b (String "." r))) = true).
      { simpl. rewrite (digit_not_ws a Ha), (digit_not_ws b Hb). simpl.
        by apply allDigits_noWs. }
      assert (Hc : codeChars (String a (String b (String "." r))) = true).
      { simpl. rewrite Ha, Hb. simpl. by apply allDigits_codeChars. }
      unfold canonicalCip, stripEnds. rewrite (trim_noWs _ Hn).
      assert (stripOpen (String a (String b (String "." r)))
              = String a (String b (String "." r))) as ->.
      { simpl. by rewrite (digit_not_open a Ha). }
      rewrite (stripClose_codeChars _ Hc).
      assert (Js.includes (String a (String b (String "." r))) "." = true) as ->.
      { simpl. rewrite (digit_not_dot a Ha), (digit_not_dot b Hb). done. }
      assert (Js.splitDot (String a (String b (String "." r)))
              = [String a (String b EmptyString); r]) as ->.
      { simpl. rewrite (digit_not_dot a Ha), (digit_not_dot b Hb). simpl.
        by rewrite (splitDot_digits r Hr). }
      simpl take. unfold Js.slot. simpl lookup. simpl Js.orEmpty.
      rewrite (trim_noWs r (allDigits_noWs r Hr)).
      assert (Js.trim (String a (String b EmptyString))
              = String a (String b EmptyString)) as ->.
      { apply trim_noWs. simpl.
        by rewrite (digit_not_ws a Ha), (digit_not_ws b Hb). }
      unfold normalizeCipInput. rewrite (trim_noWs _ Hn).
      assert (Js.removeBrackets (String a (String b (String "." r)))
              = String a (String b (String "." r))) as ->.
      { simpl. rewrite (digit_not_bracket a Ha), (digit_not_bracket b Hb).
        simpl. by rewrite removeBrackets_digits. }
      rewrite Hp. simpl Js.truthy. simpl negb.
      unfold re_digitsN, re_digits1to4, re_subfamily, re_canonical.
      simpl re_family. rewrite Ha, Hb, Hr. simpl.
      rewrite (digit_not_dot a Ha), (digit_not_dot b Hb), (splitDot_digits r Hr).
      simpl.
      destruct (String.length r =? 2)%nat eqn:E2; [done|].
      destruct (String.length r =? 4)%nat eqn:E4; [done|].
      destruct Hlen as [H1 H4]. apply Nat.leb_le in H4. rewrite H4.
      by destruct (String.length r); [lia|]. }
  split; [exact Hsame|]. rewrite Hsame.
  apply normalizeCipInput_result.
  destruct Ht as [Hf|[[l r] Hp]].
  - rewrite (normalizeCipInput_family t Hf). by destruct t.
  - destruct (normalizeCipInput t) eqn:E; [|done].
    destruct (re_partial_inv t l r Hp) as (a & b & -> & -> & Ha & Hb & Hr & Hlen).
    exfalso. revert E. unfold normalizeCipInput.
    assert (Hn : noWs (String a (String b (String "." r))) = true).
    { simpl. rewrite (digit_not_ws a Ha), (digit_not_ws b Hb). simpl.
      by apply allDigits_noWs. }
    rewrite (trim_noWs _ Hn). simpl.
    rewrite (digit_not_bracket a Ha), (digit_not_bracket b Hb). simpl.
    rewrite (removeBrackets_digits r Hr), Ha, Hb, Hr. simpl.
    rewrite (digit_not_dot a Ha), (digit_not_dot b Hb). simpl.
    destruct (String.length r =? 2)%nat; [discriminate|].
    destruct (String.length r =? 4)%nat; [discriminate|].
    destruct Hlen as [H1 H4]. apply Nat.leb_le in H4. rewrite H4.
    destruct (String.length r); [lia|]. discriminate.
Qed.

Lemma canonicalisers_agree_witness :
  canonicalCip "14.903" = normalizeCipInput "14.903"
  ∧ Canonical (canonicalCip "14.903").
Proof. apply canonicalisers_agree. right. by eexists. Defined.

(** ** The derived family of a loaded record *)

Lemma splitDot_first fam rest :
  noDot fam = true →
  Js.splitDot (fam +:+ "." +:+ rest) = fam :: Js.splitDot rest.
Proof.
  induction fam as [|c fam IH]; simpl; [done|].
  intros [Hc Hf]%andb_true_iff. apply negb_true_iff in Hc.
  simpl in IH. by rewrite Hc, IH.
Qed.

Lemma splitDot_noDot s : noDot s = true → Js.splitDot s = [s].
Proof.
  induction s as [|c s IH]; simpl; [done|].
  intros [Hc Hs]%andb_true_iff. apply negb_true_iff in Hc.
  by rewrite Hc, IH.
Qed.

(** X18.  For an entry without a family of its own (absent or empty),
    [loadIndex] derives the family from the code: it is the text before the
    first dot, the whole code when there is no dot, and so the first two
    digits of a canonical code. *)
Theorem deriveRecord_family e :
  familyField e = None ∨ familyField e = Some EmptyString →
  (∀ fam rest, noDot fam = true → cip e = fam +:+ "." +:+ rest →
     cipFamily (deriveRecord e) = fam)
  ∧ (noDot (cip e) = true → cipFamily (deriveRecord e) = cip e)
  ∧ (Canonical (cip e) → cipFamily (deriveRecord e) = Js.slice0 2 (cip e)).
Proof.
  intros Hf.
  assert (Hfam : cipFamily (deriveRecord e) = Js.slot (Js.splitDot (cip e)) 0).
  { unfold deriveRecord. simpl. by destruct Hf as [->| ->]. }
  rewrite Hfam. repeat split.
  - intros fam rest Hn ->. by rewrite splitDot_first.
  - intros Hn. by rewrite splitDot_noDot.
  - intros (a & b & d1 & d2 & d3 & d4 & -> & Ha & Hb & _).
    simpl. by rewrite (digit_not_dot a Ha), (digit_not_dot b Hb).
Qed.

Lemma deriveRecord_family_witness :
  (∀ fam rest, noDot fam = true → cip computing = fam +:+ "." +:+ rest →
     cipFamily (deriveRecord computing) = fam)
  ∧ (noDot (cip computing) = true → cipFamily (deriveRecord computing) = cip computing)
  ∧ (Canonical (cip computing) →
     cipFamily (deriveRecord computing) = Js.slice0 2 (cip computing)).
Proof. apply deriveRecord_family. by left. Defined.

(** ** The page script's search *)

Lemma filter_sublist {A} (f : A → bool) l : sublist (List.filter f l) l.
Proof.
  induction l as [|x l IH]; simpl; [constructor|].
  destruct (f x); by constructor.
Qed.

(** X19.  [searchIndex] returns a sub-sequence of the stored records: only
    records of the index, in their stored order, never sorted; under the
    STEM filter each of them is eligible; and an empty or blank query
    returns at most 50 of them. *)
Theorem searchIndex_sublist entries q stemOnly :
  sublist (searchIndex entries q stemOnly) entries
  ∧ (stemOnly = true →
     ∀ e, In e (searchIndex entries q stemOnly) → stemEligible e = true)
  ∧ (Js.trim q = EmptyString →
     (length (searchIndex entries q stemOnly) ≤ 50)%nat).
Proof.
  set (hits := if stemOnly then List.filter stemEligible entries else entries).
  assert (Hh : sublist hits entries).
  { unfold hits. destruct stemOnly; [apply filter_sublist|done]. }
  assert (Hr : sublist (searchIndex entries q stemOnly) hits).
  { unfold searchIndex. fold hits.
    destruct (String.eqb _ _); [apply sublist_take|].
    destruct (_ && _); [|apply filter_sublist].
    destruct (Js.endsWith _ _); [apply filter_sublist|].
    destruct (Js.endsWith _ _); apply filter_sublist. }
  split; [by etrans|]. split.
  - intros -> e He. apply list_elem_of_In in He.
    pose proof (elem_of_sublist _ _ _ He Hr) as He'.
    apply list_elem_of_In in He'. unfold hits in He'.
    by apply filter_In in He' as [_ ?].
  - intros Hq. unfold searchIndex. rewrite Hq. simpl.
    rewrite length_take. lia.
Qed.

Lemma searchIndex_sublist_witness : stemEligible compEng = true.
Proof.
  apply (proj1 (proj2 (searchIndex_sublist [computing; compEng; eeTech]
                         "engineering" true)) eq_refl compEng).
  left. reflexivity.
Defined.

Lemma canonicalCip_family t :
  re_family t = true → canonicalCip t = t +:+ ".0000".
Proof.
  intros (a & b & -> & Ha & Hb)%re_family_inv.
  unfold canonicalCip, stripEnds, Js.trim. by_digit_facts.
Qed.

Lemma canonicalCip_canonical c : Canonical c → canonicalCip c = c.
Proof.
  intros (a & b & d1 & d2 & d3 & d4 & -> & Ha & Hb & H1 & H2 & H3 & H4).
  unfold canonicalCip, stripEnds, Js.trim. by_digit_facts.
  unfold re_digitsN. by_digit_facts.
Qed.

Lemma re_canonical_Canonical c : Canonical c → re_canonical c = true.
Proof.
  intros (a & b & d1 & d2 & d3 & d4 & -> & Ha & Hb & H1 & H2 & H3 & H4).
  by_digit_facts.
Qed.

(** X20.  For a query that is two digits once trimmed, [searchIndex]
    returns, in stored order, exactly the records (the eligible ones under
    the STEM filter) whose code starts with the two digits and a dot. *)
Theorem searchIndex_family entries q stemOnly :
  re_family (Js.trim q) = true →
  searchIndex entries q stemOnly =
    List.filter (λ e, Js.startsWith (cip e) (Js.trim q +:+ "."))
      (if stemOnly then List.filter stemEligible entries else entries).
Proof.
  intros Hf. unfold searchIndex. rewrite (canonicalCip_family _ Hf).
  destruct (re_family_inv _ Hf) as (a & b & -> & Ha & Hb).
  by_digit_facts.
Qed.

Lemma searchIndex_family_witness :
  searchIndex [computing; compEng; eeTech] " 14 " true =
    List.filter (λ e, Js.startsWith (cip e) (Js.trim " 14 " +:+ "."))
      (List.filter stemEligible [computing; compEng; eeTech]).
Proof. apply (searchIndex_family _ " 14 " true). reflexivity. Defined.

(** X21.  For a query that is a canonical code [NN.NNNN] once trimmed,
    [searchIndex] looks at the end of the code: ending in [.0000] it returns
    the records of the family, ending in [00] the records of the subfamily
    (the first five code units as prefix), and only otherwise the records
    with exactly that code - always in stored order and after the STEM
    filter. *)
Theorem searchIndex_code entries q stemOnly :
  Canonical (Js.trim q) →
  searchIndex entries q stemOnly =
    List.filter
      (λ e, if Js.endsWith (Js.trim q) ".0000"
            then Js.startsWith (cip e) (Js.slice0 2 (Js.trim q) +:+ ".")
            else if Js.endsWith (Js.trim q) "00"
            then Js.startsWith (cip e) (Js.slice0 5 (Js.trim q))
            else String.eqb (cip e) (Js.trim q))
      (if stemOnly then List.filter stemEligible entries else entries).
Proof.
  intros Hc. unfold searchIndex.
  rewrite (canonicalCip_canonical _ Hc), (re_canonical_Canonical _ Hc).
  assert (String.eqb (Js.trim q) EmptyString = false) as ->.
  { by destruct Hc as (a & b & d1 & d2 & d3 & d4 & -> & _). }
  assert (Js.truthy (Js.trim q) = true) as ->.
  { by destruct Hc as (a & b & d1 & d2 & d3 & d4 & -> & _). }
  simpl. destruct (Js.endsWith (Js.trim q) ".0000"); [done|].
  by destruct (Js.endsWith (Js.trim q) "00").
Qed.

Lemma searchIndex_code_witness :
  searchIndex [computing; compEng; eeTech] "14.0900" false =
    List.filter
      (λ e, if Js.endsWith (Js.trim "14.0900") ".0000"
            then Js.startsWith (cip e) (Js.slice0 2 (Js.trim "14.0900") +:+ ".")
            else if Js.endsWith (Js.trim "14.0900") "00"
            then Js.startsWith (cip e) (Js.slice0 5 (Js.trim "14.0900"))
            else String.eqb (cip e) (Js.trim "14.0900"))
      [computing; compEng; eeTech].
Proof.
  apply (searchIndex_code _ "14.0900" false).
  exists "1"%char, "4"%char, "0"%char, "9"%char, "0"%char, "0"%char.
  repeat split.
Defined.

Example searchIndex_exact_code_ending_00 :
  map cip (searchIndex [computing; compEng; eeTech] "14.0900" false) = ["14.0901"].
Proof. reflexivity. Qed.

(** ** The query string *)

(** X22.  Writing the state to the URL and reading it again gives the state
    back, whatever the parameters were before, and writing touches no
    parameter other than [q] and [stem]. *)
Theorem url_state_round_trip q stemOnly (params : gmap string string) :
  readUrlState (setUrlState q stemOnly params) = (q, stemOnly)
  ∧ ∀ k, k ≠ "q" → k ≠ "stem" →
         setUrlState q stemOnly params !! k = params !! k.
Proof.
  unfold readUrlState, setUrlState. split.
  - destruct q as [|c q], stemOnly; simpl; by simplify_map_eq.
  - intros k Hq Hs. destruct q as [|c q], stemOnly; simpl; by simplify_map_eq.
Qed.

Lemma url_state_round_trip_witness :
  setUrlState "engineering" true {["page" := "2"]} !! "page"
  = ({["page" := "2"]} : gmap string string) !! "page".
Proof.
  apply (proj2 (url_state_round_trip "engineering" true {["page" := "2"]}));
    discriminate.
Defined.

(** ** Keyword search in the page script *)

Lemma collapse_empty s : Js.collapseWs s = EmptyString → s = EmptyString.
Proof.
  induction s as [|c s IH]; simpl; [done|].
  destruct (Js.isWs c); [|discriminate].
  destruct (Js.startsWithWs s) eqn:Es; [|discriminate].
  intros H. rewrite (IH H) in Es. discriminate Es.
Qed.

Lemma normalizeText_empty q :
  normalizeText q = EmptyString ↔ Js.trim q = EmptyString.
Proof.
  unfold normalizeText. split.
  - intros H%collapse_empty. by destruct (Js.trim q).
  - by intros ->.
Qed.

(** X23.  For queries that are not code-shaped, the page script's keyword
    search depends on the query only through its normalised text: two
    queries that differ in case, in outer blanks or in the amount of white
    space between words return the same records. *)
Theorem searchIndex_keyword_normal entries q q' stemOnly :
  Js.truthy (canonicalCip (Js.trim q)) && re_canonical (canonicalCip (Js.trim q))
    = false →
  Js.truthy (canonicalCip (Js.trim q')) && re_canonical (canonicalCip (Js.trim q'))
    = false →
  normalizeText q = normalizeText q' →
  searchIndex entries q stemOnly = searchIndex entries q' stemOnly.
Proof.
  intros Hc Hc' Hn.
  assert (Hw : ∀ x, tokenize (Js.trim x)
                    = List.filter Js.truthy (Js.splitWs (normalizeText x))).
  { intros x. unfold tokenize, normalizeText.
    by rewrite map_trim_splitWs, splitWs_collapse. }
  unfold searchIndex. rewrite Hc, Hc', (Hw q), (Hw q'), Hn.
  destruct (String.eqb_spec (Js.trim q) EmptyString) as [E|E];
    destruct (String.eqb_spec (Js.trim q') EmptyString) as [E'|E']; try done.
  - apply normalizeText_empty in E. rewrite Hn in E.
    by apply normalizeText_empty in E.
  - apply normalizeText_empty in E'. rewrite <- Hn in E'.
    by apply normalizeText_empty in E'.
Qed.

Lemma searchIndex_keyword_normal_witness :
  searchIndex [computing; compEng; eeTech] "  Computer   ENGINEERING" false =
    searchIndex [computing; compEng; eeTech] "computer engineering" false.
Proof.
  apply (searchIndex_keyword_normal _ "  Computer   ENGINEERING"
           "computer engineering" false); vm_compute; reflexivity.
Defined.

Lemma startsWith_across_ws t a c b :
  noWs t = true → Js.isWs c = true →
  Js.startsWith (a +:+ String c b) t = Js.startsWith a t.
Proof.
  revert a. induction t as [|y t IH]; intros a; simpl; [done|].
  intros [Hy Ht]%andb_true_iff Hc. apply negb_true_iff in Hy.
  destruct a as [|x a]; simpl.
  - destruct (Ascii.eqb_spec c y) as [->|]; [congruence|done].
  - by rewrite IH.
Qed.

Lemma includes_across_ws t a c b :
  noWs t = true → Js.isWs c = true →
  Js.includes (a +:+ String c b) t = Js.includes a t || Js.includes b t.
Proof.
  intros Ht Hc. induction a as [|x a IH].
  - change (EmptyString +:+ String c b) with (String c b).
    cbn [Js.includes]. rewrite orb_false_r.
    by rewrite <- (startsWith_across_ws t EmptyString c b Ht Hc).
  - change (String x a +:+ String c b) with (String x (a +:+ String c b)).
    cbn [Js.includes]. rewrite IH.
    change (String x (a +:+ String c b)) with (String x a +:+ String c b).
    rewrite (startsWith_across_ws t (String x a) c b Ht Hc).
    by rewrite orb_assoc.
Qed.

(** X24.  A run without white space - every token is one - occurs in the
    haystack of the keyword filter exactly when it occurs in the lower-cased
    title or in the lower-cased definition: the space between the two keeps
    a token from matching across them. *)
Theorem hay_token e t :
  noWs t = true →
  Js.includes (hay e) t =
    Js.includes (Js.toLowerCase (Js.orEmpty (title e))) t
    || Js.includes (Js.toLowerCase (Js.orEmpty (definition e))) t.
Proof.
  intros Ht. unfold hay. rewrite toLowerCase_app.
  change (Js.toLowerCase (" " +:+ Js.orEmpty (definition e)))
    with (String " " (Js.toLowerCase (Js.orEmpty (definition e)))).
  by apply includes_across_ws.
Qed.

Lemma hay_token_witness :
  Js.includes (hay compEng) "hardware" =
    Js.includes (Js.toLowerCase (Js.orEmpty (title compEng))) "hardware"
    || Js.includes (Js.toLowerCase (Js.orEmpty (definition compEng))) "hardware".
Proof. apply hay_token. reflexivity. Defined.

(** ** Keyword and family queries across the two implementations *)

(** X25.  For queries that are not code-shaped, [search] depends on the
    query only through its normalised text: queries that differ in outer
    blanks, in case or in the amount of white space between words return the
    same records. *)
Theorem search_keyword_normal records q q' stemOnly limit :
  canon q = EmptyString → canon q' = EmptyString →
  normalizeText q = normalizeText q' →
  search records q stemOnly limit = search records q' stemOnly limit.
Proof.
  intros Hc Hc' Hn.
  assert (Ht : ∀ x, normalizeText (Js.trim x) = normalizeText x).
  { intros x. unfold normalizeText. by rewrite trim_idem. }
  assert (He : exactMatch records (canon q) = None) by (by rewrite Hc).
  assert (He' : exactMatch records (canon q') = None) by (by rewrite Hc').
  rewrite (search_scan _ _ _ _ He), (search_scan _ _ _ _ He').
  f_equal. apply scan_ext. intros r.
  change (queryHit q r = queryHit q' r).
  by rewrite (queryHit_not_code q r Hc), (queryHit_not_code q' r Hc'), !Ht, Hn.
Qed.

Lemma search_keyword_normal_witness :
  search (loadRecords [eeTech; compEng; computing])
    "  Computer   ENGINEERING" false 50 =
  search (loadRecords [eeTech; compEng; computing])
    "computer engineering" false 50.
Proof.
  apply (search_keyword_normal _ "  Computer   ENGINEERING"
           "computer engineering" false 50); vm_compute; reflexivity.
Defined.


